(** * LeadRing: the lead-monitoring core of the three servers

    The repository holds three near-identical servers that watch a Google
    sheet and push newly appended rows to one client connection:

    - the socket.io server (cookie-session identity, a process-wide
      [activeMonitors] map from [socket.id] to the interval handle),
    - [server.ts] (the [ws] server, tokens read from a cookie, one
      [monitorInterval] variable per connection),
    - the Hono server (the [ws] server, tokens sent in the message).

    Node runs every handler to its next [await] without interruption, so
    each server is embedded as a deterministic step function over the
    events of the event loop: a client message, a firing of a live
    interval timer, and the resolution of an in-flight [checkLeads] call.
    The order of the events is the only source of nondeterminism. *)

From stdpp Require Import gmap strings list fin_maps.



(** ** Data shared by the three servers *)

(** A row of the sheet: [string[]]. *)
Definition row := list string.

(** What [sheets.spreadsheets.values.get] does: it throws (expired tokens,
    no permission, network), or it answers with [response.data.values],
    which is [undefined] when the range holds no cell. *)
Inductive api_response :=
  | ApiThrows
  | ApiValues (values : option (list row)).

(** [checkLeads], from the answer of the API on:
    [try { ...; return response.data.values || []; } catch { return null; }].
    An array is truthy even when empty, so only [undefined] is replaced. *)
Definition checkLeads (resp : api_response) : option (list row) :=
  match resp with
  | ApiThrows => None
  | ApiValues values => Some (default [] values)
  end.

(** [Array.prototype.slice(start)] with one argument: a negative [start]
    counts from the end, and the bounds are clamped. *)
Definition js_slice {A} (l : list A) (start : Z) : list A :=
  let len := Z.of_nat (length l) in
  let k := if (start <? 0)%Z then Z.max (len + start) 0 else Z.min start len in
  drop (Z.to_nat k) l.

(** A message field of the client protocol: JS truthiness of a value that
    is [undefined] or a string. *)
Definition falsy (x : option string) : bool :=
  match x with
  | None => true
  | Some s => bool_decide (s = "")
  end.

(** The values found in the object literals the servers send. *)
Inductive value :=
  | VRows (leads : list row)
  | VNum (n : Z)
  | VStr (s : string).

(** An object literal, its fields in source order. *)
Definition payload := list (string * value).

Fixpoint field (k : string) (o : payload) : option value :=
  match o with
  | [] => None
  | (k', v) :: o' => if bool_decide (k' = k) then Some v else field k o'
  end.

(** The two places that call [checkLeads]. *)
Inductive call_site := Baseline | Tick.

(** An in-flight [checkLeads(tokens, spreadsheetId)]: the closure that
    awaits it, where it awaits, and the arguments of the call. *)
Record read := {
  read_env : nat;
  read_site : call_site;
  read_tokens : option string;
  read_spreadsheetId : option string;
}.

(** A live [setInterval] timer: the closure its callback runs in and its
    period in milliseconds. *)
Record timer := {
  callback : nat;
  delay : Z;
}.

(** ** The socket.io server *)

Module SocketIo.

(** The variables of one run of the [start-monitoring] handler, shared by
    the handler and the interval callback it creates. *)
Record env := {
  env_socket : string;
  spreadsheetId : option string;
  lastRowCount : Z;
  interval : option nat;
}.

(** A connection: [session?.tokens] and whether the socket is open. *)
Record socket := {
  tokens : option string;
  connected : bool;
}.

Record state := {
  sockets : gmap string socket;
  activeMonitors : gmap string nat;
  timers : gmap nat timer;
  envs : gmap nat env;
  pending : gmap nat read;
  next_id : nat;
  emitted : list (string * string * payload);
}.

Definition init : state :=
  {| sockets := ∅; activeMonitors := ∅; timers := ∅; envs := ∅;
     pending := ∅; next_id := 0; emitted := [] |}.

(** *** The primitives the handlers use *)

(** [socket.emit(name, body)] *)
Definition socket_emit (sid name : string) (body : payload) (s : state) : state :=
  {| sockets := sockets s; activeMonitors := activeMonitors s;
     timers := timers s; envs := envs s; pending := pending s;
     next_id := next_id s; emitted := emitted s ++ [(sid, name, body)] |}.

(** [setInterval(cb, ms)]: a fresh handle, live until cleared. *)
Definition setInterval (c : nat) (ms : Z) (s : state) : nat * state :=
  (next_id s,
   {| sockets := sockets s; activeMonitors := activeMonitors s;
      timers := <[next_id s := {| callback := c; delay := ms |}]> (timers s);
      envs := envs s; pending := pending s;
      next_id := S (next_id s); emitted := emitted s |}).

(** [clearInterval(h)]; clearing [undefined] or a dead handle does nothing. *)
Definition clearInterval (h : option nat) (s : state) : state :=
  match h with
  | None => s
  | Some t =>
    {| sockets := sockets s; activeMonitors := activeMonitors s;
       timers := delete t (timers s); envs := envs s; pending := pending s;
       next_id := next_id s; emitted := emitted s |}
  end.

(** [activeMonitors.set(id, h)] and [activeMonitors.delete(id)] *)
Definition activeMonitors_set (sid : string) (t : nat) (s : state) : state :=
  {| sockets := sockets s; activeMonitors := <[sid := t]> (activeMonitors s);
     timers := timers s; envs := envs s; pending := pending s;
     next_id := next_id s; emitted := emitted s |}.

Definition activeMonitors_delete (sid : string) (s : state) : state :=
  {| sockets := sockets s; activeMonitors := delete sid (activeMonitors s);
     timers := timers s; envs := envs s; pending := pending s;
     next_id := next_id s; emitted := emitted s |}.

(** The start of [await checkLeads(tokens, id)]: the call is in flight and
    the closure [c] is suspended at [site]. *)
Definition call_checkLeads (c : nat) (site : call_site) (tk : option string)
    (id : option string) (s : state) : state :=
  {| sockets := sockets s; activeMonitors := activeMonitors s;
     timers := timers s; envs := envs s;
     pending := <[next_id s := {| read_env := c; read_site := site;
                                  read_tokens := tk;
                                  read_spreadsheetId := id |}]> (pending s);
     next_id := S (next_id s); emitted := emitted s |}.

Definition set_envs (f : gmap nat env → gmap nat env) (s : state) : state :=
  {| sockets := sockets s; activeMonitors := activeMonitors s;
     timers := timers s; envs := f (envs s); pending := pending s;
     next_id := next_id s; emitted := emitted s |}.

(** A new closure for one run of the handler. *)
Definition new_env (e : env) (s : state) : nat * state :=
  (next_id s,
   {| sockets := sockets s; activeMonitors := activeMonitors s;
      timers := timers s; envs := <[next_id s := e]> (envs s);
      pending := pending s; next_id := S (next_id s);
      emitted := emitted s |}).

(** [lastRowCount = n] *)
Definition set_lastRowCount (c : nat) (n : Z) : state → state :=
  set_envs (alter (λ e, {| env_socket := env_socket e;
                           spreadsheetId := spreadsheetId e;
                           lastRowCount := n; interval := interval e |}) c).

(** [const interval = ...] *)
Definition set_interval (c : nat) (t : nat) : state → state :=
  set_envs (alter (λ e, {| env_socket := env_socket e;
                           spreadsheetId := spreadsheetId e;
                           lastRowCount := lastRowCount e;
                           interval := Some t |}) c).

(** [session?.tokens] of a connection *)
Definition session_tokens (sid : string) (s : state) : option string :=
  sk ← sockets s !! sid; tokens sk.

(** *** The handlers *)

(** [socket.on("start-monitoring", async ({ spreadsheetId }) => ...)] up to
    its first [await]. *)
Definition on_start_monitoring (sid : string) (id : option string)
    (s : state) : state :=
  if falsy id || negb (bool_decide (is_Some (session_tokens sid s))) then s
  else
    let '(c, s1) := new_env {| env_socket := sid; spreadsheetId := id;
                               lastRowCount := -1; interval := None |} s in
    call_checkLeads c Baseline (session_tokens sid s1) id s1.

(** The handler after [await checkLeads(...)] gave [initialRows]. *)
Definition start_monitoring_resume (c : nat) (initialRows : option (list row))
    (s : state) : state :=
  match envs s !! c with
  | None => s
  | Some e =>
    match initialRows with
    | None =>
      socket_emit (env_socket e) "monitoring-error"
        [("message",
          VStr "Failed to access spreadsheet. Check the ID and permissions.")] s
    | Some rows0 =>
      let s1 := set_lastRowCount c (Z.of_nat (length rows0)) s in
      let '(t, s2) := setInterval c 5000 s1 in
      let s3 := set_interval c t s2 in
      activeMonitors_set (env_socket e) t s3
    end
  end.

(** The interval callback up to its [await]. *)
Definition interval_callback (c : nat) (s : state) : state :=
  match envs s !! c with
  | None => s
  | Some e =>
    call_checkLeads c Tick (session_tokens (env_socket e) s) (spreadsheetId e) s
  end.

(** The interval callback after [await checkLeads(...)] gave [rows]. *)
Definition interval_resume (c : nat) (rows : option (list row))
    (s : state) : state :=
  match envs s !! c with
  | None => s
  | Some e =>
    match rows with
    | Some rows =>
      let len := Z.of_nat (length rows) in
      let s1 :=
        if negb (lastRowCount e =? -1)%Z && (lastRowCount e <? len)%Z
        then socket_emit (env_socket e) "new-leads"
               [("leads", VRows (js_slice rows (lastRowCount e)));
                ("total", VNum len)] s
        else s in
      set_lastRowCount c len s1
    | None =>
      let s1 := socket_emit (env_socket e) "monitoring-error"
                  [("message", VStr "Lost connection to spreadsheet.")] s in
      let s2 := clearInterval (interval e) s1 in
      activeMonitors_delete (env_socket e) s2
    end
  end.

(** [socket.on("stop-monitoring", ...)] *)
Definition on_stop_monitoring (sid : string) (s : state) : state :=
  match activeMonitors s !! sid with
  | Some t => activeMonitors_delete sid (clearInterval (Some t) s)
  | None => s
  end.

(** [socket.on("disconnect", ...)]; the socket is closed afterwards. *)
Definition on_disconnect (sid : string) (s : state) : state :=
  let s1 := on_stop_monitoring sid s in
  {| sockets := alter (λ sk, {| tokens := tokens sk; connected := false |})
                  sid (sockets s1);
     activeMonitors := activeMonitors s1; timers := timers s1;
     envs := envs s1; pending := pending s1; next_id := next_id s1;
     emitted := emitted s1 |}.

(** [io.on("connection", (socket) => ...)]: the handlers of a new socket
    are registered; socket ids are unique. *)
Definition on_connection (sid : string) (tk : option string) (s : state) : state :=
  match sockets s !! sid with
  | Some _ => s
  | None =>
    {| sockets := <[sid := {| tokens := tk; connected := true |}]> (sockets s);
       activeMonitors := activeMonitors s; timers := timers s;
       envs := envs s; pending := pending s; next_id := next_id s;
       emitted := emitted s |}
  end.

Definition is_connected (sid : string) (s : state) : bool :=
  match sockets s !! sid with
  | Some sk => connected sk
  | None => false
  end.

Definition remove_pending (r : nat) (s : state) : state :=
  {| sockets := sockets s; activeMonitors := activeMonitors s;
     timers := timers s; envs := envs s; pending := delete r (pending s);
     next_id := next_id s; emitted := emitted s |}.

(** *** The event loop *)

Inductive event :=
  | Connection (sid : string) (tk : option string)
  | StartMonitoring (sid : string) (id : option string)
  | StopMonitoring (sid : string)
  | Disconnect (sid : string)
  | Fire (t : nat)
  | Resolve (r : nat) (resp : api_response).

(** One turn of the event loop. A message of a socket that is not open, a
    firing of a timer that is not live and a resolution of a call that is
    not in flight cannot happen: they leave the state as it is. *)
Definition step (s : state) (ev : event) : state :=
  match ev with
  | Connection sid tk => on_connection sid tk s
  | StartMonitoring sid id =>
    if is_connected sid s then on_start_monitoring sid id s else s
  | StopMonitoring sid =>
    if is_connected sid s then on_stop_monitoring sid s else s
  | Disconnect sid =>
    if is_connected sid s then on_disconnect sid s else s
  | Fire t =>
    match timers s !! t with
    | Some tm => interval_callback (callback tm) s
    | None => s
    end
  | Resolve r resp =>
    match pending s !! r with
    | Some rd =>
      match read_site rd with
      | Baseline =>
        start_monitoring_resume (read_env rd) (checkLeads resp) (remove_pending r s)
      | Tick =>
        interval_resume (read_env rd) (checkLeads resp) (remove_pending r s)
      end
    | None => s
    end
  end.

Definition run (s : state) (evs : list event) : state := foldl step s evs.

(** *** Scenarios and invariants *)

(** Ticks that do not overlap: the timer [t] fires and the read it starts
    resolves with [response.data.values = values], one tick after the
    other. *)
Fixpoint run_ticks (t : nat) (s : state) (reads : list (option (list row)))
    : state :=
  match reads with
  | [] => s
  | values :: reads' =>
    let s1 := step s (Fire t) in
    run_ticks t (step s1 (Resolve (next_id s) (ApiValues values))) reads'
  end.

(** Reads in flight that resolve in the order given, each with its
    [response.data.values]; the reads may have been started by firings of
    the timer that overlap. *)
Fixpoint resolve_reads (s : state) (rs : list (nat * option (list row)))
    : state :=
  match rs with
  | [] => s
  | (r, values) :: rs' =>
    resolve_reads (step s (Resolve r (ApiValues values))) rs'
  end.

(** The row counts of a sequence of reads never go down, starting from
    the count [prev] of the read before. *)
Fixpoint counts_nondecreasing (prev : nat) (reads : list (list row)) : bool :=
  match reads with
  | [] => true
  | rows :: reads' =>
    bool_decide (prev ≤ length rows) && counts_nondecreasing (length rows) reads'
  end.

(** Each read extends the one before: rows are only ever appended. *)
Fixpoint append_only (before : list row) (reads : list (list row)) : Prop :=
  match reads with
  | [] => True
  | rows :: reads' => before `prefix_of` rows ∧ append_only rows reads'
  end.

(** The messages the specification asks for: per tick one batch holding
    the rows at the indices from the previous count on, with the new
    count, and no message for a tick that has no such row. *)
Fixpoint new_leads_batches (sid : string) (prev : nat) (reads : list (list row))
    : list (string * string * payload) :=
  match reads with
  | [] => []
  | rows :: reads' =>
    match drop prev rows with
    | [] => []
    | batch =>
      [(sid, "new-leads",
        [("leads", VRows batch); ("total", VNum (Z.of_nat (length rows)))])]
    end ++ new_leads_batches sid (length rows) reads'
  end.

(** The rows of the last read of a sequence, [before] when it is empty. *)
Fixpoint last_rows (before : list row) (reads : list (list row)) : list row :=
  match reads with
  | [] => before
  | rows :: reads' => last_rows rows reads'
  end.

(** The rows carried by messages, in the order sent. *)
Definition leads_of (m : string * string * payload) : list row :=
  match field "leads" m.2 with
  | Some (VRows leads) => leads
  | _ => []
  end.

Definition all_leads (ms : list (string * string * payload)) : list row :=
  concat (leads_of <$> ms).

(** A sheet of three leads, the same sheet after two more were appended,
    and a connection ["s1"] that monitors a sheet and has read [rows0] as
    its baseline: closure [0], baseline read [1], timer [2]. *)
Definition sheet3 : list row :=
  [["Ann"; "ann@example.org"]; ["Bob"; "bob@example.org"];
   ["Cy"; "cy@example.org"]].

Definition sheet5 : list row :=
  sheet3 ++ [["Di"; "di@example.org"]; ["Ed"; "ed@example.org"]].

Definition monitoring (id : string) (rows0 : list row) : list event :=
  [Connection "s1" (Some "tok"); StartMonitoring "s1" (Some id);
   Resolve 1 (ApiValues (Some rows0))].


(** The connection ["s1"] starts a second session without stopping the
    first: closure [3], baseline read [4], timer [5] after [monitoring]. *)
Definition restart (id : string) (rows0 : list row) : list event :=
  [StartMonitoring "s1" (Some id); Resolve 4 (ApiValues (Some rows0))].

(** The states the server can be in. *)
Definition reachable (s : state) : Prop := ∃ evs, s = run init evs.

(** What every reachable state satisfies. A live timer runs in a closure
    that is past its baseline and stores the timer's handle; a closure
    awaiting its baseline read has no handle yet and no other read in
    flight; identifiers in use are below [next_id]. *)
Record wf (s : state) : Prop := {
  wf_timer : ∀ t tm, timers s !! t = Some tm →
    ∃ e, envs s !! callback tm = Some e ∧ interval e = Some t ∧
         (0 ≤ lastRowCount e)%Z;
  wf_baseline : ∀ r rd, pending s !! r = Some rd → read_site rd = Baseline →
    (∃ e, envs s !! read_env rd = Some e ∧ interval e = None) ∧
    ∀ r' rd', pending s !! r' = Some rd' → read_env rd' = read_env rd → r' = r;
  wf_tick : ∀ r rd, pending s !! r = Some rd → read_site rd = Tick →
    ∃ e, envs s !! read_env rd = Some e ∧ is_Some (interval e) ∧
         (0 ≤ lastRowCount e)%Z;
  wf_env : ∀ c e, envs s !! c = Some e →
    c < next_id s ∧
    ∀ t, interval e = Some t → t < next_id s ∧ (0 ≤ lastRowCount e)%Z;
  wf_pending : ∀ r rd, pending s !! r = Some rd → r < next_id s;
  wf_monitor : ∀ sid t, activeMonitors s !! sid = Some t → t < next_id s;
}.

(** The closure [c] has no live timer and is not awaiting its baseline. *)
Definition quiet (c : nat) (s : state) : Prop :=
  c < next_id s ∧
  (∀ t tm, timers s !! t = Some tm → callback tm ≠ c) ∧
  (∀ r rd, pending s !! r = Some rd → read_env rd = c → read_site rd = Tick).

End SocketIo.

(** ** The two [ws] servers

    [server.ts] and the Hono server share the interval callback and the
    [stop-monitoring] and [close] handlers word for word; they differ in
    where the tokens come from and in the guard of [start-monitoring]. *)

Module Ws.

(** The variables of one run of the [start-monitoring] branch. [env_tokens]
    is [sessionTokens] in [server.ts] and the message's [tokens] in the
    Hono server. *)
Record env := {
  env_conn : string;
  env_tokens : option string;
  spreadsheetId : option string;
  lastRowCount : Z;
}.

(** The variables of one run of the [connection] callback. *)
Record conn := {
  sessionTokens : option string;
  monitorInterval : option nat;
  is_open : bool;
}.

Record state := {
  conns : gmap string conn;
  timers : gmap nat timer;
  envs : gmap nat env;
  pending : gmap nat read;
  next_id : nat;
  sent : list (string * payload);
}.

Definition init : state :=
  {| conns := ∅; timers := ∅; envs := ∅; pending := ∅; next_id := 0;
     sent := [] |}.

(** [ws.send(JSON.stringify(body))] *)
Definition ws_send (cid : string) (body : payload) (s : state) : state :=
  {| conns := conns s; timers := timers s; envs := envs s;
     pending := pending s; next_id := next_id s;
     sent := sent s ++ [(cid, body)] |}.

Definition setInterval (c : nat) (ms : Z) (s : state) : nat * state :=
  (next_id s,
   {| conns := conns s;
      timers := <[next_id s := {| callback := c; delay := ms |}]> (timers s);
      envs := envs s; pending := pending s; next_id := S (next_id s);
      sent := sent s |}).

Definition clearInterval (t : nat) (s : state) : state :=
  {| conns := conns s; timers := delete t (timers s); envs := envs s;
     pending := pending s; next_id := next_id s; sent := sent s |}.

Definition call_checkLeads (c : nat) (site : call_site) (tk : option string)
    (id : option string) (s : state) : state :=
  {| conns := conns s; timers := timers s; envs := envs s;
     pending := <[next_id s := {| read_env := c; read_site := site;
                                  read_tokens := tk;
                                  read_spreadsheetId := id |}]> (pending s);
     next_id := S (next_id s); sent := sent s |}.

Definition new_env (e : env) (s : state) : nat * state :=
  (next_id s,
   {| conns := conns s; timers := timers s;
      envs := <[next_id s := e]> (envs s); pending := pending s;
      next_id := S (next_id s); sent := sent s |}).

Definition set_lastRowCount (c : nat) (n : Z) (s : state) : state :=
  {| conns := conns s; timers := timers s;
     envs := alter (λ e, {| env_conn := env_conn e; env_tokens := env_tokens e;
                            spreadsheetId := spreadsheetId e;
                            lastRowCount := n |}) c (envs s);
     pending := pending s; next_id := next_id s; sent := sent s |}.

(** [monitorInterval = t] *)
Definition set_monitorInterval (cid : string) (t : nat) (s : state) : state :=
  {| conns := alter (λ k, {| sessionTokens := sessionTokens k;
                             monitorInterval := Some t;
                             is_open := is_open k |}) cid (conns s);
     timers := timers s; envs := envs s; pending := pending s;
     next_id := next_id s; sent := sent s |}.

(** [if (monitorInterval) clearInterval(monitorInterval);] *)
Definition clear_monitorInterval (cid : string) (s : state) : state :=
  match k ← conns s !! cid; monitorInterval k with
  | Some t => clearInterval t s
  | None => s
  end.

(** The interval callback up to its [await]. *)
Definition interval_callback (c : nat) (s : state) : state :=
  match envs s !! c with
  | None => s
  | Some e => call_checkLeads c Tick (env_tokens e) (spreadsheetId e) s
  end.

(** The interval callback after [await checkLeads(...)] gave [rows]. *)
Definition interval_resume (c : nat) (rows : option (list row))
    (s : state) : state :=
  match envs s !! c with
  | None => s
  | Some e =>
    match rows with
    | Some rows =>
      let len := Z.of_nat (length rows) in
      let s1 :=
        if negb (lastRowCount e =? -1)%Z && (lastRowCount e <? len)%Z
        then ws_send (env_conn e)
               [("type", VStr "new-leads");
                ("leads", VRows (js_slice rows (lastRowCount e)))] s
        else s in
      set_lastRowCount c len s1
    | None =>
      let s1 := ws_send (env_conn e)
                  [("type", VStr "error");
                   ("message", VStr "Lost connection to spreadsheet.")] s in
      clear_monitorInterval (env_conn e) s1
    end
  end.

(** The [start-monitoring] branch after a successful baseline read. *)
Definition start_monitoring_baseline (c : nat) (initialRows : list row)
    (s : state) : state :=
  match envs s !! c with
  | None => s
  | Some e =>
    let s1 := set_lastRowCount c (Z.of_nat (length initialRows)) s in
    let '(t, s2) := setInterval c 5000 s1 in
    set_monitorInterval (env_conn e) t s2
  end.

(** [wss.on("connection", ...)] *)
Definition on_connection (cid : string) (tk : option string) (s : state) : state :=
  match conns s !! cid with
  | Some _ => s
  | None =>
    {| conns := <[cid := {| sessionTokens := tk; monitorInterval := None;
                            is_open := true |}]> (conns s);
       timers := timers s; envs := envs s; pending := pending s;
       next_id := next_id s; sent := sent s |}
  end.

(** [ws.on("close", ...)]; the connection is closed afterwards. *)
Definition on_close (cid : string) (s : state) : state :=
  let s1 := clear_monitorInterval cid s in
  {| conns := alter (λ k, {| sessionTokens := sessionTokens k;
                             monitorInterval := monitorInterval k;
                             is_open := false |}) cid (conns s1);
     timers := timers s1; envs := envs s1; pending := pending s1;
     next_id := next_id s1; sent := sent s1 |}.

Definition is_connected (cid : string) (s : state) : bool :=
  match conns s !! cid with
  | Some k => is_open k
  | None => false
  end.

Definition remove_pending (r : nat) (s : state) : state :=
  {| conns := conns s; timers := timers s; envs := envs s;
     pending := delete r (pending s); next_id := next_id s; sent := sent s |}.

Inductive event :=
  | Connection (cid : string) (tk : option string)
  | StartMonitoring (cid : string) (id tk : option string)
  | StopMonitoring (cid : string)
  | Close (cid : string)
  | Fire (t : nat)
  | Resolve (r : nat) (resp : api_response).

(** The event loop of a [ws] server, given its [start-monitoring] branch
    before ([start]) and after ([resume]) the baseline [await]. *)
Definition step
    (start : string → option string → option string → state → state)
    (resume : nat → option (list row) → state → state)
    (s : state) (ev : event) : state :=
  match ev with
  | Connection cid tk => on_connection cid tk s
  | StartMonitoring cid id tk =>
    if is_connected cid s then start cid id tk s else s
  | StopMonitoring cid =>
    if is_connected cid s then clear_monitorInterval cid s else s
  | Close cid =>
    if is_connected cid s then on_close cid s else s
  | Fire t =>
    match timers s !! t with
    | Some tm => interval_callback (callback tm) s
    | None => s
    end
  | Resolve r resp =>
    match pending s !! r with
    | Some rd =>
      match read_site rd with
      | Baseline => resume (read_env rd) (checkLeads resp) (remove_pending r s)
      | Tick =>
        interval_resume (read_env rd) (checkLeads resp) (remove_pending r s)
      end
    | None => s
    end
  end.

(** A connection ["c1"] with a session cookie. *)
Definition connected : list event := [Connection "c1" (Some "tok")].

End Ws.

(** *** [server.ts] *)

Module ServerTs.
Import Ws.

(** The [start-monitoring] branch of [ws.on("message", ...)] up to its
    [await]. The message's [tokens] field is not read. *)
Definition on_start_monitoring (cid : string) (id tk : option string)
    (s : state) : state :=
  let sessionTokens := k ← conns s !! cid; sessionTokens k in
  if negb (bool_decide (is_Some sessionTokens)) then
    ws_send cid [("type", VStr "error");
                 ("message",
                  VStr "Authentication required. Please log in again.")] s
  else
    let '(c, s1) := new_env {| env_conn := cid; env_tokens := sessionTokens;
                               spreadsheetId := id; lastRowCount := -1 |} s in
    call_checkLeads c Baseline sessionTokens id s1.

Definition start_monitoring_resume (c : nat) (initialRows : option (list row))
    (s : state) : state :=
  match envs s !! c, initialRows with
  | None, _ => s
  | Some e, None =>
    ws_send (env_conn e)
      [("type", VStr "error");
       ("message",
        VStr "Failed to access spreadsheet. Ensure you have permissions.")] s
  | Some e, Some rows0 => start_monitoring_baseline c rows0 s
  end.

Definition step : state → event → state :=
  Ws.step on_start_monitoring start_monitoring_resume.

Definition run (s : state) (evs : list event) : state := foldl step s evs.

End ServerTs.

(** *** The Hono server *)

Module Hono.
Import Ws.

(** The [start-monitoring] branch up to its [await]: the tokens are the
    message's. *)
Definition on_start_monitoring (cid : string) (id tk : option string)
    (s : state) : state :=
  if falsy id || falsy tk then s
  else
    let '(c, s1) := new_env {| env_conn := cid; env_tokens := tk;
                               spreadsheetId := id; lastRowCount := -1 |} s in
    call_checkLeads c Baseline tk id s1.

Definition start_monitoring_resume (c : nat) (initialRows : option (list row))
    (s : state) : state :=
  match envs s !! c, initialRows with
  | None, _ => s
  | Some e, None =>
    ws_send (env_conn e)
      [("type", VStr "error");
       ("message", VStr "Failed to access spreadsheet.")] s
  | Some e, Some rows0 => start_monitoring_baseline c rows0 s
  end.

Definition step : state → event → state :=
  Ws.step on_start_monitoring start_monitoring_resume.

Definition run (s : state) (evs : list event) : state := foldl step s evs.

End Hono.


(** ** The client, [App.tsx] *)

Module App.

(** [s.slice(n)] on the tail of a string that is known to be long enough. *)
Fixpoint string_drop (n : nat) (s : string) : string :=
  match n, s with
  | 0, _ => s
  | S n', String _ s' => string_drop n' s'
  | S _, EmptyString => EmptyString
  end.

(** The first occurrence of [sep] in [s], scanning from the left: the text
    before it and the text after it. *)
Fixpoint cut (sep s : string) : option (string * string) :=
  if String.prefix sep s then Some (EmptyString, string_drop (String.length sep) s)
  else
    match s with
    | EmptyString => None
    | String a s' =>
      match cut sep s' with
      | Some (b, r) => Some (String a b, r)
      | None => None
      end
    end.

(** [s.includes(sub)] *)
Definition includes (sub s : string) : bool :=
  match cut sub s with
  | Some _ => true
  | None => false
  end.

(** [s.split(sep)] for a separator that is not empty, as both separators
    of [startMonitoring] are: the pieces between the occurrences of [sep],
    found from the left and not overlapping. Every cut shortens the rest,
    so the length of [s] is fuel enough. *)
Fixpoint split_fuel (n : nat) (sep s : string) : list string :=
  match n with
  | 0 => [s]
  | S n' =>
    match cut sep s with
    | None => [s]
    | Some (b, r) => b :: split_fuel n' sep r
    end
  end.

Definition split (sep s : string) : list string :=
  split_fuel (String.length s) sep s.

(** The id sent by [startMonitoring]:
    [let id = spreadsheetId;
     if (id.includes("/d/")) id = id.split("/d/")[1].split("/")[0];]
    [None] stands for the [TypeError] of calling [split] on [undefined]. *)
Definition extract_id (spreadsheetId : string) : option string :=
  if includes "/d/" spreadsheetId then
    x ← split "/d/" spreadsheetId !! 1; split "/" x !! 0
  else Some spreadsheetId.

(** The piece of [s] before the first [sep], all of [s] without one. *)
Definition before (sep s : string) : string :=
  match cut sep s with
  | Some (b, _) => b
  | None => s
  end.

(** [Array.prototype.slice(start, end)]: negative indices count from the
    end, and both are clamped. *)
Definition js_slice_range {A} (l : list A) (start stop : Z) : list A :=
  let len := Z.of_nat (length l) in
  let clamp i := if (i <? 0)%Z then Z.max (len + i) 0 else Z.min i len in
  take (Z.to_nat (clamp stop - clamp start)) (drop (Z.to_nat (clamp start)) l).

(** [interface Lead { data: string[]; timestamp: number; }] *)
Record Lead := {
  data : row;
  timestamp : Z;
}.

(** [data.leads.map(row => ({ data: row, timestamp: Date.now() }))]:
    [Date.now()] is read once per row; [now i] is the reading for row [i]. *)
Definition newLeads (now : nat → Z) (leads : list row) : list Lead :=
  imap (λ i row, {| data := row; timestamp := now i |}) leads.

(** The updater of [setLeads] in the [new-leads] handler:
    [prev => [...newLeads, ...prev].slice(0, 50)] *)
Definition on_new_leads (now : nat → Z) (leads : list row) (prev : list Lead)
    : list Lead :=
  js_slice_range (newLeads now leads ++ prev) 0 50.

(** The feed after a sequence of [new-leads] messages, oldest first. *)
Fixpoint feed (prev : list Lead) (batches : list ((nat → Z) * list row))
    : list Lead :=
  match batches with
  | [] => prev
  | (now, leads) :: batches' => feed (on_new_leads now leads prev) batches'
  end.

Inductive status := Idle | Monitoring | Error.

(** The state of the component that the handlers read and write. *)
Record app := {
  spreadsheetId : string;
  isMonitoring : bool;
  app_status : status;
}.

(** What a handler does besides setting state. *)
Inductive effect :=
  | Alert (msg : string)
  | Emit (name : string) (body : payload).

(** [startMonitoring] *)
Definition startMonitoring (a : app) : option (app * list effect) :=
  if bool_decide (spreadsheetId a = "") then
    Some (a, [Alert "Please enter a Spreadsheet ID"])
  else
    id ← extract_id (spreadsheetId a);
    Some ({| spreadsheetId := spreadsheetId a; isMonitoring := true;
             app_status := Monitoring |},
          [Emit "start-monitoring"
             [("spreadsheetId", VStr id); ("tokens", VStr "SESSION_TOKENS")]]).

(** [stopMonitoring] *)
Definition stopMonitoring (a : app) : app * list effect :=
  ({| spreadsheetId := spreadsheetId a; isMonitoring := false;
      app_status := Idle |},
   [Emit "stop-monitoring" []]).

(** The handler of [monitoring-error]. *)
Definition on_monitoring_error (msg : string) (a : app) : app * list effect :=
  ({| spreadsheetId := spreadsheetId a; isMonitoring := false;
      app_status := Error |},
   [Alert msg]).

(** What socket.io hands to the handlers of the server for a message the
    client emits on the socket [sid]; the [start-monitoring] handler
    destructures [spreadsheetId] from the body. *)
Definition deliver (sid : string) (e : effect) : list SocketIo.event :=
  match e with
  | Emit "start-monitoring" body =>
    [SocketIo.StartMonitoring sid
       (match field "spreadsheetId" body with
        | Some (VStr id) => Some id
        | _ => None
        end)]
  | Emit "stop-monitoring" _ => [SocketIo.StopMonitoring sid]
  | _ => []
  end.

End App.

(** ** Further invariants of the servers *)

Module SocketIoInv.
Import SocketIo.

(** The registry and the closures agree: a handle kept in [activeMonitors]
    is a live timer whose closure belongs to that socket, and the handle a
    closure stores in [interval] is the handle of its own timer. *)
Record registry_ok (s : state) : Prop := {
  reg_live : ∀ sid t, activeMonitors s !! sid = Some t →
    ∃ tm e, timers s !! t = Some tm ∧ envs s !! callback tm = Some e ∧
            env_socket e = sid;
  reg_owner : ∀ c e t tm, envs s !! c = Some e → interval e = Some t →
    timers s !! t = Some tm → callback tm = c;
}.

(** Every closure was created with a truthy [spreadsheetId] by a socket
    that has tokens, and every read in flight was called with both. *)
Record creds_ok (s : state) : Prop := {
  creds_env : ∀ c e, envs s !! c = Some e →
    falsy (spreadsheetId e) = false ∧
    is_Some (session_tokens (env_socket e) s);
  creds_read : ∀ r rd, pending s !! r = Some rd →
    falsy (read_spreadsheetId rd) = false ∧ is_Some (read_tokens rd);
}.

(** The two shapes of message the server emits. *)
Definition message_ok (m : string * string * payload) : Prop :=
  (∃ msg, m.1.2 = "monitoring-error" ∧ m.2 = [("message", VStr msg)]) ∨
  (∃ leads total,
     m.1.2 = "new-leads" ∧
     m.2 = [("leads", VRows leads); ("total", VNum total)] ∧
     leads ≠ [] ∧ (Z.of_nat (length leads) ≤ total)%Z).

(** The connection an event belongs to: the socket of a message, the
    socket whose handler created the timer that fires or started the read
    that resolves. *)
Definition event_socket (s : state) (ev : event) : option string :=
  match ev with
  | Connection sid _ | StartMonitoring sid _ | StopMonitoring sid
  | Disconnect sid => Some sid
  | Fire t => tm ← timers s !! t; e ← envs s !! callback tm; Some (env_socket e)
  | Resolve r _ =>
    rd ← pending s !! r; e ← envs s !! read_env rd; Some (env_socket e)
  end.

(** The closure an event runs in: the closure of the timer that fires or
    of the read that resolves; a message of the client runs in none. *)
Definition step_env (s : state) (ev : event) : option nat :=
  match ev with
  | Fire t => callback <$> timers s !! t
  | Resolve r _ => read_env <$> pending s !! r
  | _ => None
  end.

(** The messages emitted along a run by the turns that run in the
    closure [c]. *)
Fixpoint emitted_by (c : nat) (s : state) (evs : list event)
    : list (string * string * payload) :=
  match evs with
  | [] => []
  | ev :: evs' =>
    (if bool_decide (step_env s ev = Some c)
     then drop (length (emitted s)) (emitted (step s ev))
     else []) ++ emitted_by c (step s ev) evs'
  end.

(** The reads of the closure [c] that are in flight. *)
Definition reads_of (c : nat) (s : state) : gmap nat read :=
  filter (λ p, read_env p.2 = c) (pending s).




End SocketIoInv.

Module WsInv.
Import Ws.

(** What every reachable state of a [ws] server satisfies: timers and
    tick reads belong to closures past their baseline, whose
    [lastRowCount] is a row count. *)
Record wf (s : state) : Prop := {
  wf_timer : ∀ t tm, timers s !! t = Some tm →
    ∃ e, envs s !! callback tm = Some e ∧ (0 ≤ lastRowCount e)%Z;
  wf_tick : ∀ r rd, pending s !! r = Some rd → read_site rd = Tick →
    ∃ e, envs s !! read_env rd = Some e ∧ (0 ≤ lastRowCount e)%Z;
  wf_baseline : ∀ r rd, pending s !! r = Some rd → read_site rd = Baseline →
    is_Some (envs s !! read_env rd);
  wf_env : ∀ c e, envs s !! c = Some e → c < next_id s;
}.

(** The arguments of every [checkLeads] call, started or to come, satisfy
    [P]. *)
Record calls_satisfy (P : option string → option string → Prop) (s : state)
    : Prop := {
  calls_env : ∀ c e, envs s !! c = Some e → P (env_tokens e) (spreadsheetId e);
  calls_read : ∀ r rd, pending s !! r = Some rd →
    P (read_tokens rd) (read_spreadsheetId rd);
}.

(** A connection ["c1"] that monitors [id] with baseline [rows0]
    (closure [0], read [1], timer [2]), and then starts a second session
    without stopping the first (closure [3], read [4], timer [5]). *)
Definition monitoring (id : string) (rows0 : list row) : list event :=
  connected ++ [StartMonitoring "c1" (Some id) (Some "tok");
                Resolve 1 (ApiValues (Some rows0))].

Definition restart (id : string) (rows0 : list row) : list event :=
  [StartMonitoring "c1" (Some id) (Some "tok");
   Resolve 4 (ApiValues (Some rows0))].

End WsInv.

(** * Properties of the socket.io server *)

Module SocketIoFacts.
Import SocketIo.

Ltac prims :=
  unfold on_start_monitoring, start_monitoring_resume, interval_callback,
    interval_resume, on_stop_monitoring, on_disconnect, on_connection,
    remove_pending, set_lastRowCount, set_interval, set_envs, new_env,
    call_checkLeads, activeMonitors_set, activeMonitors_delete,
    clearInterval, setInterval, socket_emit in *.

Ltac fields :=
  cbn [sockets activeMonitors timers envs pending next_id emitted
       env_socket spreadsheetId lastRowCount interval
       read_env read_site read_tokens read_spreadsheetId callback delay
       fst snd] in *.

Lemma run_app s evs1 evs2 : run s (evs1 ++ evs2) = run (run s evs1) evs2.
Proof. apply foldl_app. Qed.

Lemma run_snoc s evs ev : run s (evs ++ [ev]) = step (run s evs) ev.
Proof. by rewrite run_app. Qed.

Lemma js_slice_drop {A} (l : list A) (n : nat) :
  js_slice l (Z.of_nat n) = drop n l.
Proof.
  unfold js_slice.
  destruct (Z.ltb_spec (Z.of_nat n) 0) as [Hneg|_]; [lia|].
  destruct (decide (n ≤ length l)) as [Hle|Hgt].
  - by rewrite Z.min_l, Nat2Z.id by lia.
  - rewrite Z.min_r, Nat2Z.id by lia.
    rewrite !drop_ge; [done|lia..].
Qed.

(** ** The invariant *)

Lemma wf_init : wf init.
Proof. split; unfold init; fields; intros *; by rewrite ?lookup_empty. Qed.

Lemma wf_socket_emit sid name body s : wf s → wf (socket_emit sid name body s).
Proof. intros []; split; prims; fields; done. Qed.

Lemma wf_clearInterval h s : wf s → wf (clearInterval h s).
Proof.
  intros Hwf. destruct h as [t|]; [|done].
  destruct Hwf; split; prims; fields; try done.
  intros t' tm [_ Ht']%lookup_delete_Some. eauto.
Qed.

Lemma wf_activeMonitors_delete sid s : wf s → wf (activeMonitors_delete sid s).
Proof.
  intros []; split; prims; fields; try done.
  intros sid' t [_ Ht]%lookup_delete_Some. eauto.
Qed.

Lemma wf_remove_pending r s : wf s → wf (remove_pending r s).
Proof.
  intros []; split; prims; fields; try done.
  - intros r1 rd1 [Hne H1]%lookup_delete_Some Hsite.
    destruct (wf_baseline0 r1 rd1 H1 Hsite) as [He Huniq]. split; [done|].
    intros r' rd' [_ H']%lookup_delete_Some. eauto.
  - intros r1 rd1 [_ H1]%lookup_delete_Some. eauto.
  - intros r1 rd1 [_ H1]%lookup_delete_Some. eauto.
Qed.

Lemma wf_set_lastRowCount c n s :
  (0 ≤ n)%Z → wf s → wf (set_lastRowCount c n s).
Proof.
  intros Hn []; split; prims; fields; try done.
  - intros t tm Ht. destruct (wf_timer0 t tm Ht) as (e & He & Hi & Hc).
    destruct (decide (c = callback tm)) as [->|Hne].
    + rewrite lookup_alter_eq, He. eauto.
    + rewrite lookup_alter_ne by done. eauto.
  - intros r rd Hr Hsite.
    destruct (wf_baseline0 r rd Hr Hsite) as [(e & He & Hi) Huniq].
    split; [|done].
    destruct (decide (c = read_env rd)) as [->|Hne].
    + rewrite lookup_alter_eq, He. eauto.
    + rewrite lookup_alter_ne by done. eauto.
  - intros r rd Hr Hsite.
    destruct (wf_tick0 r rd Hr Hsite) as (e & He & Hi & Hc).
    destruct (decide (c = read_env rd)) as [->|Hne].
    + rewrite lookup_alter_eq, He. eauto.
    + rewrite lookup_alter_ne by done. eauto.
  - intros c' e' [[-> (e & He & ->)]|[Hne He]]%lookup_alter_Some; fields.
    + destruct (wf_env0 _ _ He) as [Hlt Hint]. split; [done|].
      intros t Ht. destruct (Hint t Ht). done.
    + eauto.
Qed.

Lemma wf_call_tick c tk id e s :
  wf s → envs s !! c = Some e → is_Some (interval e) →
  (0 ≤ lastRowCount e)%Z → wf (call_checkLeads c Tick tk id s).
Proof.
  intros [] He Hi Hc; split; prims; fields.
  - done.
  - intros r rd [[<- <-]|[Hne Hr]]%lookup_insert_Some Hsite; [done|].
    destruct (wf_baseline0 r rd Hr Hsite) as [(e' & He' & Hi') Huniq].
    split; [eauto|].
    intros r' rd' [[<- <-]|[Hne' Hr']]%lookup_insert_Some Heq; fields.
    + rewrite Heq, He' in He. injection He as <-.
      rewrite Hi' in Hi. by destruct Hi.
    + eauto.
  - intros r rd [[<- <-]|[Hne Hr]]%lookup_insert_Some Hsite; fields; eauto.
  - intros c' e' He'. destruct (wf_env0 _ _ He') as [Hlt Hint].
    split; [lia|]. intros t Ht. destruct (Hint t Ht). split; [lia|done].
  - intros r rd [[<- <-]|[Hne Hr]]%lookup_insert_Some; [lia|].
    specialize (wf_pending0 _ _ Hr). lia.
  - intros sid t Ht. specialize (wf_monitor0 _ _ Ht). lia.
Qed.

Lemma wf_read_env r rd s :
  wf s → pending s !! r = Some rd → is_Some (envs s !! read_env rd).
Proof.
  intros Hwf Hr. destruct (read_site rd) eqn:Hsite.
  - destruct (wf_baseline s Hwf r rd Hr Hsite) as [(e & He & _) _]. eauto.
  - destruct (wf_tick s Hwf r rd Hr Hsite) as (e & He & _). eauto.
Qed.

Lemma wf_start e0 tk id s :
  wf s → interval e0 = None →
  wf (call_checkLeads (next_id s) Baseline tk id (new_env e0 s).2).
Proof.
  intros Hwf Hi0. split; prims; fields.
  - intros t tm Ht. destruct (wf_timer s Hwf t tm Ht) as (e & He & Hi & Hc).
    exists e. split; [|done]. rewrite lookup_insert_ne; [done|].
    apply (wf_env s Hwf) in He as [Hlt _]. lia.
  - intros r rd [[<- <-]|[Hne Hr]]%lookup_insert_Some Hsite; fields.
    + split; [rewrite lookup_insert_eq; eauto|].
      intros r' rd' [[<- <-]|[Hne' Hr']]%lookup_insert_Some Heq; [done|].
      destruct (wf_read_env _ _ _ Hwf Hr') as [e' He'].
      apply (wf_env s Hwf) in He' as [Hlt _]. lia.
    + destruct (wf_baseline s Hwf r rd Hr Hsite) as [(e & He & Hi) Huniq].
      pose proof (wf_env s Hwf _ _ He) as [Hlt _]. split.
      * exists e. rewrite lookup_insert_ne by lia. done.
      * intros r' rd' [[<- <-]|[Hne' Hr']]%lookup_insert_Some Heq; fields;
          [lia|eauto].
  - intros r rd [[<- <-]|[Hne Hr]]%lookup_insert_Some Hsite; fields; [done|].
    destruct (wf_tick s Hwf r rd Hr Hsite) as (e & He & Hi & Hc).
    pose proof (wf_env s Hwf _ _ He) as [Hlt _].
    exists e. rewrite lookup_insert_ne by lia. done.
  - intros c e [[<- <-]|[Hne He]]%lookup_insert_Some.
    + split; [lia|]. intros t Ht. congruence.
    + destruct (wf_env s Hwf _ _ He) as [Hlt Hint]. split; [lia|].
      intros t Ht. destruct (Hint t Ht). split; [lia|done].
  - intros r rd [[<- <-]|[Hne Hr]]%lookup_insert_Some; [lia|].
    pose proof (wf_pending s Hwf _ _ Hr). lia.
  - intros sid t Ht. pose proof (wf_monitor s Hwf _ _ Ht). lia.
Qed.

Lemma wf_baseline_resume r rd rows0 s :
  wf s → pending s !! r = Some rd → read_site rd = Baseline →
  wf (start_monitoring_resume (read_env rd) (Some rows0) (remove_pending r s)).
Proof.
  intros Hwf Hr Hsite.
  destruct (wf_baseline s Hwf r rd Hr Hsite) as [(e & He & Hi) Huniq].
  pose proof (wf_env s Hwf _ _ He) as [Hlt _].
  unfold start_monitoring_resume. replace (envs (remove_pending r s)) with (envs s) by done.
  rewrite He. split; prims; fields.
  - intros t tm [[<- <-]|[Hne Ht]]%lookup_insert_Some; fields.
    + rewrite !lookup_alter_eq, He. cbn. eexists. split; [done|]. fields.
      split; [done|lia].
    + destruct (wf_timer s Hwf t tm Ht) as (e' & He' & Hi' & Hc').
      exists e'. split; [|done].
      rewrite !lookup_alter_ne; [done|intros Heq; rewrite <- Heq in He'..];
        congruence.
  - intros r1 rd1 [Hne H1]%lookup_delete_Some Hsite1.
    destruct (wf_baseline s Hwf r1 rd1 H1 Hsite1) as [(e' & He' & Hi') Huniq'].
    split.
    + exists e'. split; [|done].
      rewrite !lookup_alter_ne; [done|intros Heq..];
        apply Hne; symmetry; eauto.
    + intros r' rd' [_ H']%lookup_delete_Some. eauto.
  - intros r1 rd1 [Hne H1]%lookup_delete_Some Hsite1.
    destruct (wf_tick s Hwf r1 rd1 H1 Hsite1) as (e' & He' & Hi' & Hc').
    exists e'. split; [|done].
    rewrite !lookup_alter_ne; [done|intros Heq; rewrite <- Heq in He'..];
      rewrite He in He'; injection He' as <-; rewrite Hi in Hi';
      by destruct Hi'.
  - intros c' e'. destruct (decide (read_env rd = c')) as [<-|Hne].
    + rewrite !lookup_alter_eq, He. cbn. intros [= <-]. fields.
      split; [lia|]. intros t [= <-]. lia.
    + rewrite !lookup_alter_ne by done. intros He'.
      destruct (wf_env s Hwf _ _ He') as [Hlt' Hint]. split; [lia|].
      intros t Ht. destruct (Hint t Ht). split; [lia|done].
  - intros r1 rd1 [_ H1]%lookup_delete_Some.
    pose proof (wf_pending s Hwf _ _ H1). lia.
  - intros sid t [[<- <-]|[Hne Ht]]%lookup_insert_Some; [lia|].
    pose proof (wf_monitor s Hwf _ _ Ht). lia.
Qed.

Lemma wf_sockets s s' :
  activeMonitors s' = activeMonitors s → timers s' = timers s →
  envs s' = envs s → pending s' = pending s → next_id s' = next_id s →
  wf s → wf s'.
Proof.
  intros Hm Ht He Hp Hn []. split; rewrite ?Hm, ?Ht, ?He, ?Hp, ?Hn; done.
Qed.

Lemma wf_stop sid s : wf s → wf (on_stop_monitoring sid s).
Proof.
  intros Hwf. unfold on_stop_monitoring.
  destruct (activeMonitors s !! sid); [|done].
  by apply wf_activeMonitors_delete, wf_clearInterval.
Qed.

Lemma wf_step s ev : wf s → wf (step s ev).
Proof.
  intros Hwf. destruct ev as [sid tk|sid id|sid|sid|t|r resp]; cbn [step].
  - unfold on_connection. destruct (sockets s !! sid); [done|].
    by eapply wf_sockets; [..|exact Hwf].
  - destruct (is_connected sid s); [|done]. unfold on_start_monitoring.
    destruct (falsy id || _); [done|]. by apply wf_start.
  - destruct (is_connected sid s); [|done]. by apply wf_stop.
  - destruct (is_connected sid s); [|done].
    by eapply wf_sockets; [..|apply (wf_stop sid), Hwf].
  - destruct (timers s !! t) as [tm|] eqn:Ht; [|done].
    destruct (wf_timer s Hwf t tm Ht) as (e & He & Hi & Hc).
    unfold interval_callback. rewrite He. eapply wf_call_tick; eauto.
  - destruct (pending s !! r) as [rd|] eqn:Hr; [|done].
    destruct (read_site rd) eqn:Hsite.
    + destruct (checkLeads resp) as [rows0|].
      * by apply wf_baseline_resume.
      * unfold start_monitoring_resume.
        destruct (envs _ !! _); [|by apply wf_remove_pending].
        by apply wf_socket_emit, wf_remove_pending.
    + unfold interval_resume.
      destruct (envs _ !! _) as [e|]; [|by apply wf_remove_pending].
      destruct (checkLeads resp) as [rows|].
      * apply wf_set_lastRowCount; [lia|].
        destruct (_ && _); [apply wf_socket_emit|]; by apply wf_remove_pending.
      * by apply wf_activeMonitors_delete, wf_clearInterval, wf_socket_emit,
          wf_remove_pending.
Qed.

Lemma wf_run s evs : wf s → wf (run s evs).
Proof.
  revert s. induction evs as [|ev evs IH]; intros s Hwf; [done|].
  apply IH, wf_step, Hwf.
Qed.

Lemma reachable_wf s : reachable s → wf s.
Proof. intros [evs ->]. apply wf_run, wf_init. Qed.

Lemma reachable_step s ev : reachable s → reachable (step s ev).
Proof. intros [evs ->]. exists (evs ++ [ev]). by rewrite run_snoc. Qed.

Lemma reachable_run s evs : reachable s → reachable (run s evs).
Proof. intros [evs0 ->]. exists (evs0 ++ evs). by rewrite run_app. Qed.

(** ** One tick *)

(** What resolving a successful tick read does to the state, in full. *)
Lemma tick_success s r rd e values :
  pending s !! r = Some rd → read_site rd = Tick →
  envs s !! read_env rd = Some e →
  let rows := default [] values in
  let len := Z.of_nat (length rows) in
  let s' := step s (Resolve r (ApiValues values)) in
  envs s' = <[read_env rd := {| env_socket := env_socket e;
                                spreadsheetId := spreadsheetId e;
                                lastRowCount := len;
                                interval := interval e |}]> (envs s) ∧
  emitted s' =
    emitted s ++
    (if negb (lastRowCount e =? -1)%Z && (lastRowCount e <? len)%Z
     then [(env_socket e, "new-leads",
            [("leads", VRows (js_slice rows (lastRowCount e)));
             ("total", VNum len)])]
     else []) ∧
  timers s' = timers s ∧ activeMonitors s' = activeMonitors s ∧
  sockets s' = sockets s ∧
  pending s' = delete r (pending s) ∧ next_id s' = next_id s.
Proof.
  intros Hr Hsite He. cbn zeta. cbn [step]. rewrite Hr, Hsite.
  unfold interval_resume. replace (envs (remove_pending r s)) with (envs s) by done.
  rewrite He. cbn [checkLeads].
  destruct (negb _ && _); prims; fields; rewrite ?app_nil_r;
    (split; [|done]);
    apply map_eq; intros c; rewrite lookup_alter, lookup_insert;
    case_decide; subst; by rewrite ?He.
Qed.

(** C8: a successful tick read stores its row count in [lastRowCount]
    whatever the count was before. When the count went down (or stayed),
    the smaller count is adopted and nothing else happens: no message is
    emitted, the timer and the registry entry stay, no read is started. *)
Theorem tick_adopts_count_unconditionally s r rd e values :
  pending s !! r = Some rd → read_site rd = Tick →
  envs s !! read_env rd = Some e →
  let len := Z.of_nat (length (default [] values)) in
  let s' := step s (Resolve r (ApiValues values)) in
  lastRowCount <$> envs s' !! read_env rd = Some len ∧
  ((len ≤ lastRowCount e)%Z →
   emitted s' = emitted s ∧ timers s' = timers s ∧
   activeMonitors s' = activeMonitors s ∧
   interval <$> envs s' !! read_env rd = Some (interval e) ∧
   pending s' = delete r (pending s) ∧ next_id s' = next_id s).
Proof.
  intros Hr Hsite He.
  destruct (tick_success s r rd e values Hr Hsite He)
    as (Henvs & Hem & Ht & Hm & _ & Hp & Hn).
  cbn zeta in *. rewrite Henvs, lookup_insert_eq. split; [done|].
  intros Hle. rewrite Hem.
  replace (lastRowCount e <? _)%Z with false by (symmetry; apply Z.ltb_ge; lia).
  by rewrite andb_false_r, app_nil_r.
Qed.

(** Every [new-leads] message of the socket.io server carries the batch
    under [leads] and the new row count under [total]. *)
Lemma socket_io_new_leads_carry_total s r rd e values m :
  pending s !! r = Some rd → read_site rd = Tick →
  envs s !! read_env rd = Some e →
  emitted (step s (Resolve r (ApiValues values))) = emitted s ++ [m] →
  m.1 = (env_socket e, "new-leads") ∧
  field "leads" m.2 =
    Some (VRows (js_slice (default [] values) (lastRowCount e))) ∧
  field "total" m.2 = Some (VNum (Z.of_nat (length (default [] values)))).
Proof.
  intros Hr Hsite He Hem.
  destruct (tick_success s r rd e values Hr Hsite He) as (_ & Hem' & _).
  cbn zeta in Hem'. rewrite Hem' in Hem. apply app_inv_head in Hem.
  destruct (negb _ && _); [|done]. by injection Hem as <-.
Qed.

(** ** Closures over time *)

(** A closure, once created, stays; its socket and sheet never change, and
    neither does its timer handle once it has one. *)
Lemma env_step s ev c e :
  wf s → envs s !! c = Some e →
  ∃ e', envs (step s ev) !! c = Some e' ∧
        env_socket e' = env_socket e ∧ spreadsheetId e' = spreadsheetId e ∧
        (is_Some (interval e) → interval e' = interval e).
Proof.
  intros Hwf He.
  assert (Hsame : ∀ s', envs s' = envs s →
    ∃ e', envs s' !! c = Some e' ∧ env_socket e' = env_socket e ∧
          spreadsheetId e' = spreadsheetId e ∧
          (is_Some (interval e) → interval e' = interval e)).
  { intros s' ->. eauto. }
  destruct ev as [sid tk|sid id|sid|sid|t|r resp]; cbn [step].
  - apply Hsame. unfold on_connection. by destruct (sockets s !! sid).
  - destruct (is_connected sid s); [|by apply Hsame].
    unfold on_start_monitoring. destruct (falsy id || _); [by apply Hsame|].
    prims; fields. exists e. rewrite lookup_insert_ne; [done|].
    apply (wf_env s Hwf) in He as [Hlt _]. lia.
  - destruct (is_connected sid s); [|by apply Hsame].
    apply Hsame. unfold on_stop_monitoring.
    by destruct (activeMonitors s !! sid).
  - destruct (is_connected sid s); [|by apply Hsame].
    apply Hsame. unfold on_disconnect, on_stop_monitoring.
    by destruct (activeMonitors s !! sid).
  - destruct (timers s !! t) as [tm|]; [|by apply Hsame].
    apply Hsame. unfold interval_callback. by destruct (envs s !! callback tm).
  - destruct (pending s !! r) as [rd|] eqn:Hr; [|by apply Hsame].
    destruct (read_site rd) eqn:Hsite.
    + unfold start_monitoring_resume.
      replace (envs (remove_pending r s)) with (envs s) by done.
      destruct (envs s !! read_env rd) as [e0|] eqn:He0; [|by apply Hsame].
      destruct (checkLeads resp) as [rows0|]; [|by apply Hsame].
      prims; fields. destruct (decide (read_env rd = c)) as [Heq|Hne].
      * rewrite Heq in *. rewrite !lookup_alter_eq, He. cbn.
        eexists. split; [done|]. fields. split_and!; [done..|].
        destruct (wf_baseline s Hwf r rd Hr Hsite) as [(e1 & He1 & Hi1) _].
        rewrite Heq in He1. rewrite He in He1. injection He1 as <-.
        rewrite Hi1. by intros [].
      * rewrite !lookup_alter_ne by done. eauto.
    + unfold interval_resume.
      replace (envs (remove_pending r s)) with (envs s) by done.
      destruct (envs s !! read_env rd) as [e0|] eqn:He0; [|by apply Hsame].
      destruct (checkLeads resp) as [rows|];
        [|apply Hsame; prims; by destruct (interval e0)].
      assert (∃ e', alter (λ e1, {| env_socket := env_socket e1;
                spreadsheetId := spreadsheetId e1;
                lastRowCount := Z.of_nat (length rows);
                interval := interval e1 |}) (read_env rd) (envs s) !! c = Some e' ∧
              env_socket e' = env_socket e ∧ spreadsheetId e' = spreadsheetId e ∧
              (is_Some (interval e) → interval e' = interval e)) as Halt.
      { destruct (decide (read_env rd = c)) as [Heq|Hne].
        - rewrite Heq, lookup_alter_eq, He. cbn. eauto.
        - rewrite lookup_alter_ne by done. eauto. }
      by destruct (negb _ && _).
Qed.

(** A closure that is past its baseline stays so, in every later state. *)
Lemma past_baseline_run s evs c e :
  wf s → envs s !! c = Some e → is_Some (interval e) →
  ∃ e', envs (run s evs) !! c = Some e' ∧ interval e' = interval e ∧
        env_socket e' = env_socket e ∧ spreadsheetId e' = spreadsheetId e.
Proof.
  revert s e. induction evs as [|ev evs IH]; intros s e Hwf He Hi.
  - exists e. done.
  - destruct (env_step s ev c e Hwf He) as (e1 & He1 & Hs1 & Hid1 & Hi1).
    specialize (Hi1 Hi).
    destruct (IH (step s ev) e1) as (e' & He' & Hi' & Hs' & Hid');
      [by apply wf_step|done|by rewrite Hi1|].
    exists e'. cbn [run foldl]. split; [done|]. split_and!; congruence.
Qed.

(** C10: a tick only ever runs in a closure whose baseline read succeeded
    (its [interval] handle is set), and from then on, in every later state
    of the server, that closure's [lastRowCount] is a non-negative integer,
    so the test [lastRowCount !== -1] of the tick handler is true. *)
Theorem sentinel_guard_true_on_every_tick evs r rd :
  pending (run init evs) !! r = Some rd → read_site rd = Tick →
  ∀ evs', ∃ e,
    envs (run init (evs ++ evs')) !! read_env rd = Some e ∧
    is_Some (interval e) ∧ (0 ≤ lastRowCount e)%Z ∧
    negb (lastRowCount e =? -1)%Z = true.
Proof.
  intros Hr Hsite evs'.
  assert (Hwf : wf (run init evs)) by apply wf_run, wf_init.
  destruct (wf_tick _ Hwf r rd Hr Hsite) as (e & He & Hi & _).
  destruct (past_baseline_run _ evs' _ _ Hwf He Hi) as (e' & He' & Hi' & _).
  rewrite run_app. exists e'. split; [done|].
  assert (Hwf' : wf (run (run init evs) evs')) by by apply wf_run.
  destruct Hi as [t Ht]. rewrite Ht in Hi'.
  destruct (wf_env _ Hwf' _ _ He') as [_ Hint].
  destruct (Hint t Hi') as [_ Hc].
  split_and!; [by rewrite Hi'|done|].
  apply negb_true_iff, Z.eqb_neq. lia.
Qed.

(** ** Ticks that do not overlap *)

Lemma tick_fire s t tm e :
  timers s !! t = Some tm → envs s !! callback tm = Some e →
  step s (Fire t) =
    call_checkLeads (callback tm) Tick (session_tokens (env_socket e) s)
      (spreadsheetId e) s.
Proof.
  intros Ht He. cbn [step]. rewrite Ht. unfold interval_callback. by rewrite He.
Qed.

(** The code's test and slice against the specification's batch. *)
Lemma batch_of_tick sid (n : nat) (rows : list row) :
  (if negb (Z.of_nat n =? -1)%Z && (Z.of_nat n <? Z.of_nat (length rows))%Z
   then [(sid, "new-leads",
          [("leads", VRows (js_slice rows (Z.of_nat n)));
           ("total", VNum (Z.of_nat (length rows)))])]
   else []) = new_leads_batches sid n [rows].
Proof.
  cbn [new_leads_batches]. rewrite app_nil_r, js_slice_drop.
  replace (Z.of_nat n =? -1)%Z with false by (symmetry; apply Z.eqb_neq; lia).
  cbn [negb andb].
  destruct (Z.ltb_spec (Z.of_nat n) (Z.of_nat (length rows))) as [Hlt|Hge].
  - destruct (drop n rows) eqn:Hd; [|done].
    apply (f_equal length) in Hd. rewrite length_drop in Hd. cbn in Hd. lia.
  - rewrite drop_ge by lia. done.
Qed.

Lemma new_leads_batches_cons sid n rows reads :
  new_leads_batches sid n (rows :: reads) =
  new_leads_batches sid n [rows] ++ new_leads_batches sid (length rows) reads.
Proof. cbn [new_leads_batches]. by rewrite app_nil_r. Qed.

(** Every tick of a run of ticks emits the specification's batch. *)
Lemma run_ticks_emitted reads : ∀ s t tm e (n : nat),
  timers s !! t = Some tm → envs s !! callback tm = Some e →
  lastRowCount e = Z.of_nat n →
  emitted (run_ticks t s reads) =
    emitted s ++ new_leads_batches (env_socket e) n (default [] <$> reads).
Proof.
  induction reads as [|values reads IH]; intros s t tm e n Ht He Hn.
  - cbn. by rewrite app_nil_r.
  - cbn [run_ticks fmap list_fmap]. rewrite new_leads_batches_cons.
    rewrite (tick_fire s t tm e Ht He).
    set (s1 := call_checkLeads _ _ _ _ s).
    assert (Hr : pending s1 !! next_id s =
                 Some {| read_env := callback tm; read_site := Tick;
                         read_tokens := session_tokens (env_socket e) s;
                         read_spreadsheetId := spreadsheetId e |}).
    { subst s1. prims; fields. apply lookup_insert_eq. }
    destruct (tick_success s1 _ _ e values Hr eq_refl He)
      as (Henvs & Hem & Htm & _).
    cbn zeta in *. fields.
    erewrite (IH _ t tm _ (length (default [] values)));
      [|by rewrite Htm|by rewrite Henvs; apply lookup_insert_eq|done].
    fields. rewrite Hem, Hn, batch_of_tick. subst s1. prims; fields.
    by rewrite app_assoc.
Qed.

Lemma all_leads_app ms1 ms2 : all_leads (ms1 ++ ms2) = all_leads ms1 ++ all_leads ms2.
Proof. unfold all_leads. by rewrite fmap_app, concat_app. Qed.

Lemma all_leads_batch sid n rows :
  all_leads (new_leads_batches sid n [rows]) = drop n rows.
Proof.
  cbn [new_leads_batches]. destruct (drop n rows) eqn:Hd; [done|].
  unfold all_leads. cbn. by rewrite app_nil_r.
Qed.

(** With counts that never go down, as many rows are emitted as the
    source has gained. *)
Lemma all_leads_count sid reads : ∀ before,
  counts_nondecreasing (length before) reads = true →
  length before + length (all_leads (new_leads_batches sid (length before) reads)) =
  length (last_rows before reads).
Proof.
  induction reads as [|rows reads IH]; intros before Hmono.
  - cbn. lia.
  - cbn [counts_nondecreasing] in Hmono.
    apply andb_true_iff in Hmono as [Hle%bool_decide_eq_true Hmono].
    rewrite new_leads_batches_cons, all_leads_app, length_app, all_leads_batch,
      length_drop.
    specialize (IH _ Hmono). cbn [last_rows]. lia.
Qed.

Lemma append_only_last before reads :
  append_only before reads → before `prefix_of` last_rows before reads.
Proof.
  revert before. induction reads as [|rows reads IH]; intros before Happ.
  - done.
  - destruct Happ as [Hpre Happ]. cbn [last_rows].
    etrans; [exact Hpre|]. by apply IH.
Qed.

(** With a source that only grows by appending, the rows emitted are the
    rows the source has gained, each once and in the order of the source. *)
Lemma all_leads_append_only sid reads : ∀ before,
  append_only before reads →
  all_leads (new_leads_batches sid (length before) reads) =
  drop (length before) (last_rows before reads).
Proof.
  induction reads as [|rows reads IH]; intros before Happ.
  - cbn. by rewrite drop_all.
  - destruct Happ as [[k ->] Happ].
    rewrite new_leads_batches_cons, all_leads_app, all_leads_batch, IH by done.
    cbn [last_rows].
    destruct (append_only_last _ _ Happ) as [k' ->].
    rewrite !drop_app_length.
    by rewrite <- (assoc_L (++) before k k'), drop_app_length.
Qed.

(** C1: in a session past its baseline, with reads that resolve one after
    the other and whose row counts never go down, every tick emits, as one
    [new-leads] message, the rows at the indices from the previous count
    on, in source order, and no message when there is no such row; the
    rows emitted add up to the rows the source gained, none twice and
    none left out. *)
Theorem new_leads_are_the_rows_past_the_previous_count s t tm e before reads :
  timers s !! t = Some tm → envs s !! callback tm = Some e →
  lastRowCount e = Z.of_nat (length before) →
  counts_nondecreasing (length before) (default [] <$> reads) = true →
  let out := new_leads_batches (env_socket e) (length before)
               (default [] <$> reads) in
  emitted (run_ticks t s reads) = emitted s ++ out ∧
  length before + length (all_leads out) =
    length (last_rows before (default [] <$> reads)).
Proof.
  intros Ht He Hn Hmono. cbn zeta. split.
  - by eapply run_ticks_emitted.
  - by apply all_leads_count.
Qed.

Lemma new_leads_are_the_rows_past_the_previous_count_witness :
  let s := run init (monitoring "sheetA" sheet3) in
  let e := {| env_socket := "s1"; spreadsheetId := Some "sheetA";
              lastRowCount := 3; interval := Some 2 |} in
  let reads := [Some sheet3; Some sheet5] in
  let out := new_leads_batches (env_socket e) (length sheet3)
               (default [] <$> reads) in
  emitted (run_ticks 2 s reads) = emitted s ++ out ∧
  length sheet3 + length (all_leads out) =
    length (last_rows sheet3 (default [] <$> reads)).
Proof.
  cbn zeta.
  apply (new_leads_are_the_rows_past_the_previous_count
           (run init (monitoring "sheetA" sheet3)) 2
           {| callback := 0; delay := 5000 |}
           {| env_socket := "s1"; spreadsheetId := Some "sheetA";
              lastRowCount := 3; interval := Some 2 |}
           sheet3 [Some sheet3; Some sheet5]);
    vm_compute; reflexivity.
Defined.

(** The scenario of the specification: baseline of 3 rows, a tick with the
    same 3 rows emits nothing, a tick with 5 rows emits rows 3 and 4 and
    the total 5. *)
Example new_leads_scenario :
  let s := run init (monitoring "sheetA" sheet3) in
  let s1 := run s [Fire 2; Resolve 3 (ApiValues (Some sheet3))] in
  let s2 := run s1 [Fire 2; Resolve 4 (ApiValues (Some sheet5))] in
  emitted s1 = [] ∧
  emitted s2 =
    [("s1", "new-leads",
      [("leads", VRows [["Di"; "di@example.org"]; ["Ed"; "ed@example.org"]]);
       ("total", VNum 5)])].
Proof. vm_compute. done. Qed.

(** The batches do not depend on the ticks being apart: tick reads of one
    session that are in flight together emit the same batches, in the
    order in which they resolve. *)
Lemma resolve_reads_emitted rs : ∀ s c e (n : nat),
  NoDup rs.*1 →
  (∀ r, r ∈ rs.*1 →
     ∃ rd, pending s !! r = Some rd ∧ read_env rd = c ∧ read_site rd = Tick) →
  envs s !! c = Some e → lastRowCount e = Z.of_nat n →
  emitted (resolve_reads s rs) =
    emitted s ++ new_leads_batches (env_socket e) n (default [] <$> rs.*2).
Proof.
  induction rs as [|[r values] rs IH]; intros s c e n Hnd Hpd He Hn.
  - cbn. by rewrite app_nil_r.
  - cbn [resolve_reads fmap list_fmap fst snd] in *.
    apply NoDup_cons in Hnd as [Hnotin Hnd].
    destruct (Hpd r) as (rd & Hr & <- & Hsite); [left|].
    destruct (tick_success s r rd e values Hr Hsite He)
      as (Henvs & Hem & _ & _ & _ & Hp & _).
    cbn zeta in *. rewrite new_leads_batches_cons.
    erewrite (IH _ (read_env rd) _ (length (default [] values)));
      [|done| |by rewrite Henvs; apply lookup_insert_eq|done].
    + fields. rewrite Hem, Hn, batch_of_tick. by rewrite app_assoc.
    + intros r' Hin. destruct (Hpd r') as (rd' & Hr' & Heq & Hsite');
        [by right|].
      exists rd'. split; [|done]. rewrite Hp, lookup_delete_ne; [done|].
      intros ->. done.
Qed.

(** The same rows are emitted when the source only grows by appending:
    all the rows past the baseline, each once, in source order. *)
Lemma new_leads_of_an_append_only_source s t tm e before reads :
  timers s !! t = Some tm → envs s !! callback tm = Some e →
  lastRowCount e = Z.of_nat (length before) →
  append_only before (default [] <$> reads) →
  ∃ out, emitted (run_ticks t s reads) = emitted s ++ out ∧
         all_leads out =
           drop (length before) (last_rows before (default [] <$> reads)).
Proof.
  intros Ht He Hn Happ. eexists. split.
  - by eapply run_ticks_emitted.
  - by apply all_leads_append_only.
Qed.

Lemma tick_adopts_count_unconditionally_witness :
  let s := run init (monitoring "sheetA" sheet3 ++ [Fire 2]) in
  let s' := step s (Resolve 3 (ApiValues (Some [["Ann"; "ann@example.org"]]))) in
  lastRowCount <$> envs s' !! 0 = Some 1%Z ∧
  ((1 ≤ 3)%Z →
   emitted s' = emitted s ∧ timers s' = timers s ∧
   activeMonitors s' = activeMonitors s ∧
   interval <$> envs s' !! 0 = Some (Some 2) ∧
   pending s' = delete 3 (pending s) ∧ next_id s' = next_id s).
Proof.
  cbn zeta.
  apply (tick_adopts_count_unconditionally
           (run init (monitoring "sheetA" sheet3 ++ [Fire 2])) 3
           {| read_env := 0; read_site := Tick; read_tokens := Some "tok";
              read_spreadsheetId := Some "sheetA" |}
           {| env_socket := "s1"; spreadsheetId := Some "sheetA";
              lastRowCount := 3; interval := Some 2 |}
           (Some [["Ann"; "ann@example.org"]]));
    vm_compute; reflexivity.
Defined.

Lemma sentinel_guard_true_on_every_tick_witness :
  ∃ e, envs (run init ((monitoring "sheetA" sheet3 ++ [Fire 2]) ++
                       [Resolve 3 (ApiValues (Some []))]))
         !! 0 = Some e ∧
       is_Some (interval e) ∧ (0 ≤ lastRowCount e)%Z ∧
       negb (lastRowCount e =? -1)%Z = true.
Proof.
  apply (sentinel_guard_true_on_every_tick
           (monitoring "sheetA" sheet3 ++ [Fire 2]) 3
           {| read_env := 0; read_site := Tick; read_tokens := Some "tok";
              read_spreadsheetId := Some "sheetA" |});
    vm_compute; reflexivity.
Defined.

(** ** Starting a session *)

Lemma start_accepted s sid id tk :
  is_connected sid s = true → session_tokens sid s = Some tk →
  falsy id = false →
  step s (StartMonitoring sid id) =
    call_checkLeads (next_id s) Baseline (Some tk) id
      (new_env {| env_socket := sid; spreadsheetId := id;
                  lastRowCount := -1; interval := None |} s).2.
Proof.
  intros Hc Htk Hid. cbn [step]. rewrite Hc. unfold on_start_monitoring.
  rewrite Hid, Htk. cbn [orb]. rewrite bool_decide_eq_true_2 by eauto.
  cbn [negb]. unfold new_env. cbn [snd]. unfold session_tokens. fields.
  unfold session_tokens in Htk. by rewrite Htk.
Qed.

(** The guard [if (!spreadsheetId || !session?.tokens) return;]. *)
Lemma start_rejected s sid id :
  falsy id = true ∨ session_tokens sid s = None →
  step s (StartMonitoring sid id) = s.
Proof.
  intros Hbad. cbn [step]. destruct (is_connected sid s); [|done].
  unfold on_start_monitoring. destruct Hbad as [-> | ->]; [done|].
  rewrite bool_decide_eq_false_2 by (by intros []). by rewrite orb_true_r.
Qed.

(** What resolving a successful baseline read does to the state, in full. *)
Lemma baseline_success s r rd e values :
  pending s !! r = Some rd → read_site rd = Baseline →
  envs s !! read_env rd = Some e →
  let len := Z.of_nat (length (default [] values)) in
  let s' := step s (Resolve r (ApiValues values)) in
  envs s' = <[read_env rd := {| env_socket := env_socket e;
                                spreadsheetId := spreadsheetId e;
                                lastRowCount := len;
                                interval := Some (next_id s) |}]> (envs s) ∧
  timers s' = <[next_id s := {| callback := read_env rd; delay := 5000 |}]>
                (timers s) ∧
  activeMonitors s' = <[env_socket e := next_id s]> (activeMonitors s) ∧
  emitted s' = emitted s ∧ sockets s' = sockets s ∧
  pending s' = delete r (pending s) ∧ next_id s' = S (next_id s).
Proof.
  intros Hr Hsite He. cbn zeta. cbn [step]. rewrite Hr, Hsite.
  unfold start_monitoring_resume.
  replace (envs (remove_pending r s)) with (envs s) by done.
  rewrite He. cbn [checkLeads]. prims; fields. split; [|done].
  apply map_eq; intros c. destruct (decide (read_env rd = c)) as [<-|Hne].
  - by rewrite !lookup_alter_eq, lookup_insert_eq, He.
  - by rewrite !lookup_alter_ne, lookup_insert_ne.
Qed.

(** What a failed read does to the state, in full. *)
Lemma baseline_failure s r rd e :
  pending s !! r = Some rd → read_site rd = Baseline →
  envs s !! read_env rd = Some e →
  step s (Resolve r ApiThrows) =
    socket_emit (env_socket e) "monitoring-error"
      [("message",
        VStr "Failed to access spreadsheet. Check the ID and permissions.")]
      (remove_pending r s).
Proof.
  intros Hr Hsite He. cbn [step]. rewrite Hr, Hsite.
  unfold start_monitoring_resume.
  replace (envs (remove_pending r s)) with (envs s) by done. by rewrite He.
Qed.

Lemma tick_failure s r rd e :
  pending s !! r = Some rd → read_site rd = Tick →
  envs s !! read_env rd = Some e →
  step s (Resolve r ApiThrows) =
    activeMonitors_delete (env_socket e)
      (clearInterval (interval e)
         (socket_emit (env_socket e) "monitoring-error"
            [("message", VStr "Lost connection to spreadsheet.")]
            (remove_pending r s))).
Proof.
  intros Hr Hsite He. cbn [step]. rewrite Hr, Hsite.
  unfold interval_resume.
  replace (envs (remove_pending r s)) with (envs s) by done. by rewrite He.
Qed.

(** C9: a sheet that is reachable and holds no row reads as the empty
    list, not as a failure. Its baseline stores [lastRowCount = 0], emits
    no error, and starts the timer; every row appended afterwards is
    emitted as a new lead. *)
Theorem empty_source_is_a_baseline_of_zero s sid id tk reads :
  is_connected sid s = true → session_tokens sid s = Some tk →
  falsy id = false → append_only [] (default [] <$> reads) →
  let c := next_id s in
  let t := S (S c) in
  let s1 := run s [StartMonitoring sid id; Resolve (S c) (ApiValues None)] in
  checkLeads (ApiValues None) = Some [] ∧
  emitted s1 = emitted s ∧
  envs s1 !! c = Some {| env_socket := sid; spreadsheetId := id;
                         lastRowCount := 0; interval := Some t |} ∧
  timers s1 !! t = Some {| callback := c; delay := 5000 |} ∧
  activeMonitors s1 !! sid = Some t ∧
  ∃ out, emitted (run_ticks t s1 reads) = emitted s ++ out ∧
         all_leads out = last_rows [] (default [] <$> reads).
Proof.
  intros Hc Htk Hid Happ. cbn zeta. split; [done|].
  cbn [run foldl]. rewrite (start_accepted s sid id tk Hc Htk Hid).
  set (s0 := call_checkLeads _ _ _ _ _).
  assert (Hr : pending s0 !! S (next_id s) =
               Some {| read_env := next_id s; read_site := Baseline;
                       read_tokens := Some tk; read_spreadsheetId := id |}).
  { subst s0. prims; fields. apply lookup_insert_eq. }
  assert (He : envs s0 !! next_id s =
               Some {| env_socket := sid; spreadsheetId := id;
                       lastRowCount := -1; interval := None |}).
  { subst s0. prims; fields. apply lookup_insert_eq. }
  destruct (baseline_success s0 _ _ _ None Hr eq_refl He)
    as (Henvs & Htm & Hmon & Hem & _ & _ & _).
  cbn zeta in *. fields.
  assert (Hn0 : next_id s0 = S (S (next_id s))) by done.
  rewrite Hn0 in *. rewrite Hem, Henvs, Htm, Hmon, !lookup_insert_eq.
  split_and!; try done.
  destruct (new_leads_of_an_append_only_source
              (step s0 (Resolve (S (next_id s)) (ApiValues None)))
              (S (S (next_id s))) {| callback := next_id s; delay := 5000 |}
              {| env_socket := sid; spreadsheetId := id;
                 lastRowCount := 0; interval := Some (S (S (next_id s))) |}
              [] reads) as (out & Hout & Hall).
  - rewrite Htm. apply lookup_insert_eq.
  - rewrite Henvs. apply lookup_insert_eq.
  - done.
  - done.
  - exists out. rewrite Hout, Hem. by rewrite Hall, drop_0.
Qed.

Lemma empty_source_is_a_baseline_of_zero_witness :
  let s := run init [Connection "s1" (Some "tok")] in
  let s1 := run s [StartMonitoring "s1" (Some "sheetA");
                   Resolve 1 (ApiValues None)] in
  checkLeads (ApiValues None) = Some [] ∧
  emitted s1 = emitted s ∧
  envs s1 !! 0 = Some {| env_socket := "s1"; spreadsheetId := Some "sheetA";
                         lastRowCount := 0; interval := Some 2 |} ∧
  timers s1 !! 2 = Some {| callback := 0; delay := 5000 |} ∧
  activeMonitors s1 !! "s1" = Some 2 ∧
  ∃ out, emitted (run_ticks 2 s1 [Some sheet3; Some sheet5]) = emitted s ++ out ∧
         all_leads out = last_rows [] (default [] <$> [Some sheet3; Some sheet5]).
Proof.
  cbn zeta.
  apply (empty_source_is_a_baseline_of_zero
           (run init [Connection "s1" (Some "tok")]) "s1" (Some "sheetA") "tok"
           [Some sheet3; Some sheet5]).
  - vm_compute; reflexivity.
  - vm_compute; reflexivity.
  - vm_compute; reflexivity.
  - cbn. split; [by exists sheet3|]. split; [|done].
    by exists [["Di"; "di@example.org"]; ["Ed"; "ed@example.org"]].
Defined.

(** ** Sessions that have ended *)

(** A closure without a live timer that is past its baseline read never
    gets a timer again, and no read is started for it. *)
Lemma quiet_step c s ev :
  quiet c s →
  quiet c (step s ev) ∧
  ∀ r rd, pending (step s ev) !! r = Some rd → read_env rd = c →
          pending s !! r = Some rd.
Proof.
  intros (Hlt & Htm & Hpd).
  assert (Hsame : ∀ s', timers s' = timers s → pending s' = pending s →
            next_id s' = next_id s →
            quiet c s' ∧
            ∀ r rd, pending s' !! r = Some rd → read_env rd = c →
                    pending s !! r = Some rd).
  { intros s' Ht Hp Hn. unfold quiet. rewrite Ht, Hp, Hn. done. }
  assert (Hdel : ∀ s' t, timers s' = delete t (timers s) →
            pending s' = pending s → next_id s' = next_id s →
            quiet c s' ∧
            ∀ r rd, pending s' !! r = Some rd → read_env rd = c →
                    pending s !! r = Some rd).
  { intros s' t Ht Hp Hn. unfold quiet. rewrite Ht, Hp, Hn.
    split_and!; try done. intros t' tm [_ H']%lookup_delete_Some. eauto. }
  destruct ev as [sid tk|sid id|sid|sid|t|r resp]; cbn [step].
  - apply Hsame; unfold on_connection; by destruct (sockets s !! sid).
  - destruct (is_connected sid s); [|by apply Hsame].
    unfold on_start_monitoring. destruct (falsy id || _); [by apply Hsame|].
    unfold quiet. prims; fields. split_and!; [lia|exact Htm|..].
    + intros r rd [[<- <-]|[_ Hr]]%lookup_insert_Some Heq; fields; [lia|eauto].
    + intros r rd [[<- <-]|[_ Hr]]%lookup_insert_Some Heq; fields; [lia|eauto].
  - destruct (is_connected sid s); [|by apply Hsame].
    unfold on_stop_monitoring.
    destruct (activeMonitors s !! sid) as [t|]; [|by apply Hsame].
    by apply (Hdel _ t).
  - destruct (is_connected sid s); [|by apply Hsame].
    unfold on_disconnect, on_stop_monitoring.
    destruct (activeMonitors s !! sid) as [t|]; [|by apply Hsame].
    by apply (Hdel _ t).
  - destruct (timers s !! t) as [tm|] eqn:Ht; [|by apply Hsame].
    unfold interval_callback.
    destruct (envs s !! callback tm) as [e|]; [|by apply Hsame].
    pose proof (Htm _ _ Ht) as Hcb. unfold quiet. prims; fields.
    split_and!; [lia|exact Htm|..].
    + intros r rd [[<- <-]|[_ Hr]]%lookup_insert_Some Heq; fields; [done|eauto].
    + intros r rd [[<- <-]|[_ Hr]]%lookup_insert_Some Heq; fields; [done|eauto].
  - destruct (pending s !! r) as [rd|] eqn:Hr; [|by apply Hsame].
    assert (Hrm : ∀ s', timers s' = timers s → pending s' = delete r (pending s) →
              next_id s' = next_id s →
              quiet c s' ∧
              ∀ r' rd', pending s' !! r' = Some rd' → read_env rd' = c →
                        pending s !! r' = Some rd').
    { intros s' Ht Hp Hn. unfold quiet. rewrite Ht, Hp, Hn.
      split_and!; try done; intros r' rd' [_ H']%lookup_delete_Some; eauto. }
    destruct (read_site rd) eqn:Hsite.
    + unfold start_monitoring_resume.
      replace (envs (remove_pending r s)) with (envs s) by done.
      destruct (envs s !! read_env rd) as [e|]; [|by apply Hrm].
      destruct (checkLeads resp) as [rows0|]; [|by apply Hrm].
      unfold quiet. prims; fields. split_and!.
      * lia.
      * intros t tm [[<- <-]|[_ Ht]]%lookup_insert_Some; fields; [|eauto].
        intros Heq. specialize (Hpd _ _ Hr Heq). congruence.
      * intros r' rd' [_ H']%lookup_delete_Some. eauto.
      * intros r' rd' [_ H']%lookup_delete_Some. eauto.
    + unfold interval_resume.
      replace (envs (remove_pending r s)) with (envs s) by done.
      destruct (envs s !! read_env rd) as [e|]; [|by apply Hrm].
      destruct (checkLeads resp) as [rows|].
      * destruct (negb _ && _); by apply Hrm.
      * unfold quiet. destruct (interval e) as [t|]; prims; fields.
        -- split_and!; try done.
           ++ intros t' tm [_ H']%lookup_delete_Some. eauto.
           ++ intros r' rd' [_ H']%lookup_delete_Some. eauto.
           ++ intros r' rd' [_ H']%lookup_delete_Some. eauto.
        -- split_and!; try done;
             intros r' rd' [_ H']%lookup_delete_Some; eauto.
Qed.

Lemma quiet_run c evs : ∀ s,
  quiet c s →
  quiet c (run s evs) ∧
  ∀ r rd, pending (run s evs) !! r = Some rd → read_env rd = c →
          pending s !! r = Some rd.
Proof.
  induction evs as [|ev evs IH]; intros s Hq; [done|].
  destruct (quiet_step c s ev Hq) as [Hq1 Hp1].
  destruct (IH _ Hq1) as [Hq2 Hp2]. cbn [run foldl]. split; [done|].
  intros r rd Hr Heq. eauto.
Qed.

(** A failed read leaves its closure quiet. *)
Lemma quiet_after_failure s r rd :
  wf s → pending s !! r = Some rd →
  quiet (read_env rd) (step s (Resolve r ApiThrows)).
Proof.
  intros Hwf Hr. destruct (read_site rd) eqn:Hsite.
  - destruct (wf_baseline s Hwf r rd Hr Hsite) as [(e & He & Hi) Huniq].
    rewrite (baseline_failure s r rd e Hr Hsite He).
    unfold quiet. prims; fields. split_and!.
    + by apply (wf_env s Hwf) in He as [? _].
    + intros t tm Ht Heq.
      destruct (wf_timer s Hwf t tm Ht) as (e' & He' & Hi' & _).
      rewrite Heq, He in He'. congruence.
    + intros r' rd' [Hne H']%lookup_delete_Some Heq.
      destruct Hne. symmetry. eauto.
  - destruct (wf_tick s Hwf r rd Hr Hsite) as (e & He & [t Hi] & _).
    rewrite (tick_failure s r rd e Hr Hsite He), Hi.
    unfold quiet. prims; fields. split_and!.
    + by apply (wf_env s Hwf) in He as [? _].
    + intros t' tm [Hne Ht]%lookup_delete_Some Heq.
      destruct (wf_timer s Hwf t' tm Ht) as (e' & He' & Hi' & _).
      rewrite Heq, He in He'. congruence.
    + intros r' rd' [Hne H']%lookup_delete_Some Heq.
      destruct (read_site rd') eqn:Hsite'; [|done].
      destruct (wf_baseline s Hwf r' rd' H' Hsite') as [(e' & He' & Hi') _].
      rewrite Heq, He in He'. congruence.
Qed.

(** A read that fails, at the baseline or at a tick, emits one error
    message; the failed call is over and no call is started in its place;
    the closure has no live timer from then on, and no read is ever
    started for it again. *)
Theorem read_failure_ends_the_session evs r rd :
  pending (run init evs) !! r = Some rd →
  let s := run init evs in
  let s' := step s (Resolve r ApiThrows) in
  (∃ e msg, envs s !! read_env rd = Some e ∧
     emitted s' =
       emitted s ++ [(env_socket e, "monitoring-error", [("message", VStr msg)])]) ∧
  pending s' = delete r (pending s) ∧ next_id s' = next_id s ∧
  (read_site rd = Baseline → timers s' = timers s) ∧
  (read_site rd = Tick →
   ∃ e t, envs s !! read_env rd = Some e ∧ interval e = Some t ∧
          timers s' = delete t (timers s)) ∧
  ∀ evs',
    (∀ t tm, timers (run s' evs') !! t = Some tm → callback tm ≠ read_env rd) ∧
    (∀ r' rd', pending (run s' evs') !! r' = Some rd' →
               read_env rd' = read_env rd →
               r' ≠ r ∧ pending s !! r' = Some rd').
Proof.
  intros Hr. cbn zeta.
  assert (Hwf : wf (run init evs)) by apply wf_run, wf_init.
  pose proof (quiet_after_failure _ r rd Hwf Hr) as Hq.
  set (s := run init evs) in *.
  assert (Hp : pending (step s (Resolve r ApiThrows)) = delete r (pending s)
               ∧ next_id (step s (Resolve r ApiThrows)) = next_id s
               ∧ ∃ e msg, envs s !! read_env rd = Some e ∧
                   emitted (step s (Resolve r ApiThrows)) =
                   emitted s ++ [(env_socket e, "monitoring-error",
                                  [("message", VStr msg)])]).
  { destruct (read_site rd) eqn:Hsite.
    - destruct (wf_baseline s Hwf r rd Hr Hsite) as [(e & He & _) _].
      rewrite (baseline_failure s r rd e Hr Hsite He). prims; fields. eauto 6.
    - destruct (wf_tick s Hwf r rd Hr Hsite) as (e & He & _).
      rewrite (tick_failure s r rd e Hr Hsite He).
      destruct (interval e); prims; fields; eauto 6. }
  destruct Hp as (Hp & Hn & Hem). split_and!; try done.
  - intros Hsite.
    destruct (wf_baseline s Hwf r rd Hr Hsite) as [(e & He & _) _].
    by rewrite (baseline_failure s r rd e Hr Hsite He).
  - intros Hsite.
    destruct (wf_tick s Hwf r rd Hr Hsite) as (e & He & [t Hi] & _).
    exists e, t. rewrite (tick_failure s r rd e Hr Hsite He), Hi. done.
  - intros evs'. destruct (quiet_run _ evs' _ Hq) as [(_ & Htm & _) Hpd].
    split; [done|]. intros r' rd' Hr' Heq.
    specialize (Hpd _ _ Hr' Heq). rewrite Hp in Hpd.
    apply lookup_delete_Some in Hpd as [Hne Hpd]. split; [congruence|done].
Qed.

(** ** Stopping, restarting, overlapping *)

Lemma tick_read_of_live_timer s t tm r rd :
  wf s → timers s !! t = Some tm → pending s !! r = Some rd →
  read_env rd = callback tm → read_site rd = Tick.
Proof.
  intros Hwf Ht Hr Heq. destruct (read_site rd) eqn:Hsite; [|done].
  destruct (wf_timer s Hwf t tm Ht) as (e & He & Hi & _).
  destruct (wf_baseline s Hwf r rd Hr Hsite) as [(e' & He' & Hi') _].
  rewrite Heq, He in He'. congruence.
Qed.

(** [stop-monitoring] and [disconnect] clear the registered timer and
    drop the registry entry; nothing else of the server changes. *)
Lemma stop_state s sid t ev :
  ev = StopMonitoring sid ∨ ev = Disconnect sid →
  is_connected sid s = true → activeMonitors s !! sid = Some t →
  timers (step s ev) = delete t (timers s) ∧
  activeMonitors (step s ev) = delete sid (activeMonitors s) ∧
  envs (step s ev) = envs s ∧ pending (step s ev) = pending s ∧
  next_id (step s ev) = next_id s ∧ emitted (step s ev) = emitted s.
Proof.
  intros [-> | ->] Hc Hm; cbn [step]; rewrite Hc;
    unfold on_disconnect, on_stop_monitoring; by rewrite Hm.
Qed.

(** [stop-monitoring] or [disconnect] on a connection whose registered
    timer belongs to the closure of a read in flight: the timer is cleared
    for good, and the read is acted on when it resolves as if nothing had
    been stopped. *)
Theorem stop_does_not_discard_the_read_in_flight evs sid t tm r rd ev :
  is_connected sid (run init evs) = true →
  activeMonitors (run init evs) !! sid = Some t →
  timers (run init evs) !! t = Some tm →
  pending (run init evs) !! r = Some rd → read_env rd = callback tm →
  ev = StopMonitoring sid ∨ ev = Disconnect sid →
  let s := run init evs in
  let s1 := step s ev in
  (∀ evs',
     (∀ t' tm', timers (run s1 evs') !! t' = Some tm' →
                callback tm' ≠ callback tm) ∧
     (∀ r' rd', pending (run s1 evs') !! r' = Some rd' →
                read_env rd' = callback tm → pending s !! r' = Some rd')) ∧
  pending s1 !! r = Some rd ∧
  ∃ e, envs s !! callback tm = Some e ∧
    (∀ values,
       let rows := default [] values in
       let len := Z.of_nat (length rows) in
       let s2 := step s1 (Resolve r (ApiValues values)) in
       emitted s2 =
         emitted s ++
         (if (lastRowCount e <? len)%Z
          then [(env_socket e, "new-leads",
                 [("leads", VRows (js_slice rows (lastRowCount e)));
                  ("total", VNum len)])]
          else []) ∧
       lastRowCount <$> envs s2 !! callback tm = Some len) ∧
    emitted (step s1 (Resolve r ApiThrows)) =
      emitted s ++ [(env_socket e, "monitoring-error",
                     [("message", VStr "Lost connection to spreadsheet.")])].
Proof.
  intros Hc Hm Ht Hr Heq Hev. cbn zeta.
  assert (Hwf : wf (run init evs)) by apply wf_run, wf_init.
  set (s := run init evs) in *.
  pose proof (tick_read_of_live_timer s t tm r rd Hwf Ht Hr Heq) as Hsite.
  destruct (wf_timer s Hwf t tm Ht) as (e & He & Hi & Hn).
  destruct (stop_state s sid t ev Hev Hc Hm) as (Ht1 & _ & He1 & Hp1 & Hn1 & Hem1).
  assert (Hq : quiet (callback tm) (step s ev)).
  { unfold quiet. rewrite Ht1, Hp1, Hn1. split_and!.
    - by apply (wf_env s Hwf) in He as [? _].
    - intros t' tm' [Hne Ht']%lookup_delete_Some Hcb.
      destruct (wf_timer s Hwf t' tm' Ht') as (e' & He' & Hi' & _).
      rewrite Hcb, He in He'. congruence.
    - intros r' rd' Hr' Hcb.
      by apply (tick_read_of_live_timer s t tm r' rd'). }
  split_and!.
  - intros evs'. destruct (quiet_run _ evs' _ Hq) as [(_ & Htm & _) Hpd].
    split; [done|]. intros r' rd' Hr' Hcb. rewrite <- Hp1. eauto.
  - by rewrite Hp1.
  - exists e. split; [done|]. rewrite <- Hp1 in Hr. rewrite <- Heq, <- He1 in He.
    split.
    + intros values.
      destruct (tick_success _ r rd e values Hr Hsite He)
        as (Henvs & Hem & _). cbn zeta in *.
      rewrite Hem, Hem1, Henvs, <- Heq, lookup_insert_eq.
      replace (lastRowCount e =? -1)%Z with false
        by (symmetry; apply Z.eqb_neq; lia).
      done.
    + rewrite (tick_failure _ r rd e Hr Hsite He).
      destruct (interval e); prims; fields; by rewrite Hem1.
Qed.

(** C3 as stated fails: the session is stopped while its read is in
    flight, the timer is gone and the registry entry too, and the read,
    once resolved, still emits its new leads. *)
Lemma stop_with_a_read_in_flight_counterexample :
  let s := run init (monitoring "sheetA" sheet3 ++
                     [Fire 2; StopMonitoring "s1"]) in
  timers s !! 2 = None ∧ activeMonitors s !! "s1" = None ∧ emitted s = [] ∧
  emitted (step s (Resolve 3 (ApiValues (Some sheet5)))) =
    [("s1", "new-leads",
      [("leads", VRows [["Di"; "di@example.org"]; ["Ed"; "ed@example.org"]]);
       ("total", VNum 5)])].
Proof. vm_compute. done. Qed.

(** Resolving a successful tick read leaves the timers as they are: a
    tick does not schedule the next one. *)
Lemma tick_success_timers s r rd values :
  pending s !! r = Some rd → read_site rd = Tick →
  timers (step s (Resolve r (ApiValues values))) = timers s.
Proof.
  intros Hr Hsite. cbn [step]. rewrite Hr, Hsite. unfold interval_resume.
  destruct (envs _ !! _); [|done]. cbn [checkLeads].
  by destruct (negb _ && _).
Qed.

Lemma fire_state s t tm e :
  timers s !! t = Some tm → envs s !! callback tm = Some e →
  timers (step s (Fire t)) = timers s ∧ envs (step s (Fire t)) = envs s ∧
  sockets (step s (Fire t)) = sockets s ∧
  next_id (step s (Fire t)) = S (next_id s) ∧
  pending (step s (Fire t)) =
    <[next_id s := {| read_env := callback tm; read_site := Tick;
                      read_tokens := session_tokens (env_socket e) s;
                      read_spreadsheetId := spreadsheetId e |}]> (pending s).
Proof. intros Ht He. by rewrite (tick_fire s t tm e Ht He). Qed.

(** C4, as the code has it: the reads of a session are driven by one
    [setInterval] timer, which fires whether or not an earlier read of the
    session has resolved. Every firing starts a read and leaves the timer
    and the reads in flight as they are, so after [n] firings with no
    resolution in between, [n] reads of the session are in flight
    together; the resolution of a read does not touch the timer. *)
Theorem ticks_fire_whether_or_not_a_read_is_in_flight n : ∀ s t tm e,
  timers s !! t = Some tm → envs s !! callback tm = Some e →
  (∀ r rd, pending s !! r = Some rd → r < next_id s) →
  let s' := run s (replicate n (Fire t)) in
  timers s' = timers s ∧ next_id s' = next_id s + n ∧
  (∀ i, i < n →
     pending s' !! (next_id s + i) =
       Some {| read_env := callback tm; read_site := Tick;
               read_tokens := session_tokens (env_socket e) s;
               read_spreadsheetId := spreadsheetId e |}) ∧
  (∀ r rd, pending s !! r = Some rd → pending s' !! r = Some rd) ∧
  (∀ r rd values, pending s' !! r = Some rd → read_site rd = Tick →
     timers (step s' (Resolve r (ApiValues values))) = timers s).
Proof.
  induction n as [|n IH]; intros s t tm e Ht He Hfresh; cbn zeta.
  - cbn [replicate run foldl]. split_and!; [done|lia|lia|done|].
    intros r rd values Hr Hsite. by apply (tick_success_timers s r rd).
  - cbn [replicate run foldl].
    destruct (fire_state s t tm e Ht He) as (Ht1 & He1 & Hs1 & Hn1 & Hp1).
    destruct (IH (step s (Fire t)) t tm e) as (Ht' & Hn' & Hnew & Hold & Hres).
    + by rewrite Ht1.
    + by rewrite He1.
    + rewrite Hp1, Hn1. intros r rd [[<- <-]|[_ Hr]]%lookup_insert_Some; [lia|].
      specialize (Hfresh _ _ Hr). lia.
    + cbn zeta in *. fold (run (step s (Fire t)) (replicate n (Fire t))) in *.
      assert (Hsess : session_tokens (env_socket e) (step s (Fire t)) =
                      session_tokens (env_socket e) s).
      { unfold session_tokens. by rewrite Hs1. }
      rewrite Hsess in Hnew.
      split_and!.
      * by rewrite Ht'.
      * lia.
      * intros [|i] Hi.
        -- rewrite Nat.add_0_r. apply Hold. rewrite Hp1.
           apply lookup_insert_eq.
        -- rewrite <- Nat.add_succ_comm, <- Hn1. apply Hnew. lia.
      * intros r rd Hr. apply Hold. rewrite Hp1.
        rewrite lookup_insert_ne; [done|]. specialize (Hfresh _ _ Hr). lia.
      * intros r rd values Hr Hsite. rewrite <- Ht1. by eapply Hres.
Qed.

Lemma ticks_fire_whether_or_not_a_read_is_in_flight_witness :
  let s := run init (monitoring "sheetA" sheet3) in
  let s' := run s (replicate 3 (Fire 2)) in
  timers s' !! 2 = Some {| callback := 0; delay := 5000 |} ∧
  ∀ i, i < 3 →
    pending s' !! (next_id s + i) =
      Some {| read_env := 0; read_site := Tick; read_tokens := Some "tok";
              read_spreadsheetId := Some "sheetA" |}.
Proof.
  cbn zeta.
  destruct (ticks_fire_whether_or_not_a_read_is_in_flight 3
              (run init (monitoring "sheetA" sheet3)) 2
              {| callback := 0; delay := 5000 |}
              {| env_socket := "s1"; spreadsheetId := Some "sheetA";
                 lastRowCount := 3; interval := Some 2 |})
    as (Ht & _ & Hnew & _); [vm_compute; reflexivity..| |].
  - intros r rd Hr.
    apply (wf_pending _ (wf_run init (monitoring "sheetA" sheet3) wf_init) r rd Hr).
  - split; [by rewrite Ht|]. exact Hnew.
Defined.

(** Two ticks that overlap, resolved in the order they were started, emit
    what two ticks apart emit. *)
Example overlapping_ticks_scenario :
  let s := run init (monitoring "sheetA" sheet3 ++ [Fire 2; Fire 2]) in
  emitted (resolve_reads s [(3, Some sheet3); (4, Some sheet5)]) =
    [("s1", "new-leads",
      [("leads", VRows [["Di"; "di@example.org"]; ["Ed"; "ed@example.org"]]);
       ("total", VNum 5)])].
Proof. vm_compute. done. Qed.

(** C4 as stated fails: the timer fires twice before the first read
    resolves, and two reads of the one session are in flight together. *)
Lemma overlapping_reads_counterexample :
  let s := run init (monitoring "sheetA" sheet3 ++ [Fire 2; Fire 2]) in
  read_env <$> pending s !! 3 = Some 0 ∧ read_env <$> pending s !! 4 = Some 0 ∧
  read_site <$> pending s !! 3 = Some Tick ∧
  read_site <$> pending s !! 4 = Some Tick.
Proof. vm_compute. done. Qed.




End SocketIoFacts.

(** * Properties of the two [ws] servers *)

Module WsFacts.
Import Ws.

(** What resolving a successful tick read sends: the batch, under
    [type] and [leads], and nothing else. *)
Lemma ws_tick_success start resume s r rd e values :
  pending s !! r = Some rd → read_site rd = Tick →
  envs s !! read_env rd = Some e →
  let rows := default [] values in
  let len := Z.of_nat (length rows) in
  let s' := step start resume s (Resolve r (ApiValues values)) in
  sent s' =
    sent s ++
    (if negb (lastRowCount e =? -1)%Z && (lastRowCount e <? len)%Z
     then [(env_conn e,
            [("type", VStr "new-leads");
             ("leads", VRows (js_slice rows (lastRowCount e)))])]
     else []) ∧
  lastRowCount <$> envs s' !! read_env rd = Some len ∧
  timers s' = timers s.
Proof.
  intros Hr Hsite He. cbn zeta. cbn [step]. rewrite Hr, Hsite.
  unfold interval_resume.
  replace (envs (remove_pending r s)) with (envs s) by done.
  rewrite He. cbn [checkLeads].
  destruct (negb _ && _); unfold set_lastRowCount, ws_send, remove_pending;
    cbn [sent envs timers]; rewrite ?app_nil_r, lookup_alter_eq, He; done.
Qed.

(** C7 on the [ws] servers: the [new-leads] message of a tick has the
    fields [type] and [leads] and no field [total]. *)
Theorem ws_new_leads_carry_no_total :
  let tick := [StartMonitoring "c1" (Some "sheetA") (Some "tok");
               Resolve 1 (ApiValues (Some SocketIo.sheet3));
               Fire 2; Resolve 3 (ApiValues (Some SocketIo.sheet5))] in
  let body := [("type", VStr "new-leads");
               ("leads", VRows [["Di"; "di@example.org"];
                                ["Ed"; "ed@example.org"]])] in
  sent (ServerTs.run init (connected ++ tick)) = [("c1", body)] ∧
  sent (Hono.run init (connected ++ tick)) = [("c1", body)] ∧
  field "total" body = None.
Proof. vm_compute. done. Qed.

(** The guard of [server.ts] tests the tokens only: with tokens, a read
    is started whatever [spreadsheetId] is. *)
Lemma server_ts_start_reads s cid id tk0 tk :
  is_connected cid s = true →
  (k ← conns s !! cid; sessionTokens k) = Some tk →
  pending (ServerTs.step s (StartMonitoring cid id tk0)) !! S (next_id s) =
    Some {| read_env := next_id s; read_site := Baseline;
            read_tokens := Some tk; read_spreadsheetId := id |} ∧
  is_Some (envs (ServerTs.step s (StartMonitoring cid id tk0)) !! next_id s).
Proof.
  intros Hc Htk. unfold ServerTs.step. cbn [step]. rewrite Hc.
  unfold ServerTs.on_start_monitoring. rewrite Htk.
  rewrite bool_decide_eq_true_2 by eauto. cbn [negb].
  unfold new_env, call_checkLeads. cbn [pending envs next_id].
  by rewrite !lookup_insert_eq.
Qed.

(** Without tokens [server.ts] answers with one error message and starts
    nothing. *)
Lemma server_ts_start_without_tokens s cid id tk0 :
  is_connected cid s = true →
  (k ← conns s !! cid; sessionTokens k) = None →
  ServerTs.step s (StartMonitoring cid id tk0) =
    ws_send cid [("type", VStr "error");
                 ("message",
                  VStr "Authentication required. Please log in again.")] s.
Proof.
  intros Hc Htk. unfold ServerTs.step. cbn [step]. rewrite Hc.
  unfold ServerTs.on_start_monitoring. rewrite Htk.
  by rewrite bool_decide_eq_false_2 by (by intros []).
Qed.

(** The guard of the Hono server: [if (!spreadsheetId || !tokens) return;]. *)
Lemma hono_start_rejected s cid id tk :
  falsy id = true ∨ falsy tk = true →
  Hono.step s (StartMonitoring cid id tk) = s.
Proof.
  intros Hbad. unfold Hono.step. cbn [step].
  destruct (is_connected cid s); [|done]. unfold Hono.on_start_monitoring.
  destruct Hbad as [-> | ->]; [done|]. by rewrite orb_true_r.
Qed.

(** C5 on [server.ts]: a [start-monitoring] with an empty [spreadsheetId]
    is not rejected. A closure is created and [checkLeads] is called with
    the empty id; when the call fails the client gets the error of a sheet
    that cannot be accessed, and when it answers a timer is started. *)
Theorem server_ts_reads_an_empty_spreadsheetId :
  let s := ServerTs.run init (connected ++ [StartMonitoring "c1" (Some "") None]) in
  pending s !! 1 = Some {| read_env := 0; read_site := Baseline;
                           read_tokens := Some "tok";
                           read_spreadsheetId := Some "" |} ∧
  is_Some (envs s !! 0) ∧ sent s = [] ∧
  sent (ServerTs.step s (Resolve 1 ApiThrows)) =
    [("c1", [("type", VStr "error");
             ("message",
              VStr "Failed to access spreadsheet. Ensure you have permissions.")])] ∧
  timers (ServerTs.step s (Resolve 1 (ApiValues None))) !! 2 =
    Some {| callback := 0; delay := 5000 |}.
Proof. vm_compute. split_and!; eauto. Qed.

(** The same request with [spreadsheetId] missing from the message. *)
Example server_ts_reads_a_missing_spreadsheetId :
  let s := ServerTs.run init (connected ++ [StartMonitoring "c1" None None]) in
  read_spreadsheetId <$> pending s !! 1 = Some None.
Proof. vm_compute. done. Qed.

(** [server.ts] restarts and overlaps as the socket.io server does: a
    second [start-monitoring] leaves the first timer live, and the timer
    fires with a read in flight. *)
Example server_ts_restart :
  let s := ServerTs.run init
             (connected ++
              [StartMonitoring "c1" (Some "sheetA") None;
               Resolve 1 (ApiValues (Some SocketIo.sheet3));
               StartMonitoring "c1" (Some "sheetB") None;
               Resolve 4 (ApiValues (Some []))]) in
  timers s !! 2 = Some {| callback := 0; delay := 5000 |} ∧
  timers s !! 5 = Some {| callback := 3; delay := 5000 |} ∧
  timers (ServerTs.step s (StopMonitoring "c1")) !! 2 =
    Some {| callback := 0; delay := 5000 |} ∧
  sent (ServerTs.run s [Fire 2; Resolve 6 (ApiValues (Some SocketIo.sheet5))]) =
    [("c1", [("type", VStr "new-leads");
             ("leads", VRows [["Di"; "di@example.org"];
                              ["Ed"; "ed@example.org"]])])].
Proof. vm_compute. done. Qed.

Example server_ts_overlap :
  let s := ServerTs.run init
             (connected ++
              [StartMonitoring "c1" (Some "sheetA") None;
               Resolve 1 (ApiValues (Some SocketIo.sheet3));
               Fire 2; Fire 2]) in
  read_env <$> pending s !! 3 = Some 0 ∧ read_env <$> pending s !! 4 = Some 0.
Proof. vm_compute. done. Qed.

End WsFacts.

(** * Further properties of the socket.io server *)

Module SocketIoMore.
Import SocketIo SocketIoInv SocketIoFacts.

(** ** Stopping *)

(** [stop-monitoring] any number of times is [stop-monitoring] once: the
    timer registered for the socket is cleared and no other, the registry
    entry is gone, and nothing is emitted. *)
Theorem stop_monitoring_idempotent s sid n :
  is_connected sid s = true →
  let s' := run s (replicate (S n) (StopMonitoring sid)) in
  s' = step s (StopMonitoring sid) ∧
  activeMonitors s' !! sid = None ∧ emitted s' = emitted s ∧
  envs s' = envs s ∧ pending s' = pending s ∧
  timers s' = match activeMonitors s !! sid with
              | Some t => delete t (timers s)
              | None => timers s
              end.
Proof.
  intros Hc. cbn zeta.
  assert (H1 : activeMonitors (step s (StopMonitoring sid)) !! sid = None ∧
               is_connected sid (step s (StopMonitoring sid)) = true).
  { cbn [step]. rewrite Hc. unfold on_stop_monitoring.
    destruct (activeMonitors s !! sid) eqn:Hm; [|done].
    prims; fields. split; [apply lookup_delete_eq|done]. }
  destruct H1 as [Hnone Hc1].
  assert (Hrep : ∀ k s1, is_connected sid s1 = true →
            activeMonitors s1 !! sid = None →
            run s1 (replicate k (StopMonitoring sid)) = s1).
  { induction k as [|k IH]; intros s1 Hc' Hm'; [done|].
    cbn [replicate run foldl]. cbn [step]. rewrite Hc'.
    unfold on_stop_monitoring. rewrite Hm'. by apply IH. }
  replace (run s (replicate (S n) (StopMonitoring sid)))
    with (run (step s (StopMonitoring sid)) (replicate n (StopMonitoring sid)))
    by done.
  rewrite (Hrep n _ Hc1 Hnone).
  split_and!; try done.
  - cbn [step]. rewrite Hc. unfold on_stop_monitoring.
    destruct (activeMonitors s !! sid); done.
  - cbn [step]. rewrite Hc. unfold on_stop_monitoring.
    destruct (activeMonitors s !! sid); done.
  - cbn [step]. rewrite Hc. unfold on_stop_monitoring.
    destruct (activeMonitors s !! sid); done.
  - cbn [step]. rewrite Hc. unfold on_stop_monitoring.
    destruct (activeMonitors s !! sid); done.
Qed.

Lemma stop_monitoring_idempotent_witness :
  let s := run init (monitoring "sheetA" sheet3) in
  let s' := run s (replicate 3 (StopMonitoring "s1")) in
  s' = step s (StopMonitoring "s1") ∧
  activeMonitors s' !! "s1" = None ∧ emitted s' = emitted s ∧
  envs s' = envs s ∧ pending s' = pending s ∧
  timers s' = delete 2 (timers s) ∧ timers s' !! 2 = None.
Proof.
  cbn zeta.
  destruct (stop_monitoring_idempotent
              (run init (monitoring "sheetA" sheet3)) "s1" 2)
    as (H1 & H2 & H3 & H4 & H5 & H6); [vm_compute; reflexivity|].
  replace (activeMonitors (run init (monitoring "sheetA" sheet3)) !! "s1")
    with (Some 2) in H6 by (vm_compute; reflexivity).
  split_and!; try done; rewrite H6; apply lookup_delete_eq.
Defined.

(** ** The registry *)

Lemma registry_ok_init : registry_ok init.
Proof. split; unfold init; fields; intros *; by rewrite ?lookup_empty. Qed.

Lemma registry_ok_same s s' :
  activeMonitors s' = activeMonitors s → timers s' = timers s →
  envs s' = envs s → registry_ok s → registry_ok s'.
Proof. intros Hm Ht He []. split; rewrite ?Hm, ?Ht, ?He; done. Qed.

Lemma registry_ok_stop s s' sid0 t0 :
  activeMonitors s !! sid0 = Some t0 →
  activeMonitors s' = delete sid0 (activeMonitors s) →
  timers s' = delete t0 (timers s) → envs s' = envs s →
  registry_ok s → registry_ok s'.
Proof.
  intros Hm0 Hm Ht He Hreg. split; rewrite ?Hm, ?Ht, ?He.
  - intros sid t [Hne Hm1]%lookup_delete_Some.
    destruct (reg_live s Hreg sid t Hm1) as (tm & e & Htm & Hee & Hs).
    exists tm, e. split_and!; try done.
    rewrite lookup_delete_ne; [done|]. intros <-.
    destruct (reg_live s Hreg sid0 t0 Hm0) as (tm0 & e0 & Htm0 & He0 & Hs0).
    congruence.
  - intros c e t tm Hc Hi [_ Htm]%lookup_delete_Some.
    by eapply (reg_owner s Hreg).
Qed.

Lemma registry_ok_step s ev : wf s → registry_ok s → registry_ok (step s ev).
Proof.
  intros Hwf Hreg.
  destruct ev as [sid tk|sid id|sid|sid|t|r resp]; cbn [step].
  - unfold on_connection. destruct (sockets s !! sid); [done|].
    by eapply registry_ok_same; [..|exact Hreg].
  - destruct (is_connected sid s); [|done]. unfold on_start_monitoring.
    destruct (falsy id || _); [done|]. split; prims; fields.
    + intros sid' t Hm.
      destruct (reg_live s Hreg sid' t Hm) as (tm & e & Htm & He & Hs).
      exists tm, e. split_and!; try done.
      rewrite lookup_insert_ne; [done|].
      apply (wf_env s Hwf) in He as [Hlt _]. lia.
    + intros c e t tm [[<- <-]|[_ He]]%lookup_insert_Some Hi Htm; [done|].
      by eapply (reg_owner s Hreg).
  - destruct (is_connected sid s); [|done]. unfold on_stop_monitoring.
    destruct (activeMonitors s !! sid) as [t0|] eqn:Hm; [|done].
    by eapply (registry_ok_stop s _ sid t0).
  - destruct (is_connected sid s); [|done].
    unfold on_disconnect, on_stop_monitoring.
    destruct (activeMonitors s !! sid) as [t0|] eqn:Hm.
    + by eapply (registry_ok_stop s _ sid t0).
    + by eapply registry_ok_same; [..|exact Hreg].
  - destruct (timers s !! t) as [tm|]; [|done]. unfold interval_callback.
    destruct (envs s !! callback tm); [|done].
    by eapply registry_ok_same; [..|exact Hreg].
  - destruct (pending s !! r) as [rd|] eqn:Hr; [|done].
    assert (Hstep : step s (Resolve r resp) =
              match read_site rd with
              | Baseline => start_monitoring_resume (read_env rd)
                              (checkLeads resp) (remove_pending r s)
              | Tick => interval_resume (read_env rd) (checkLeads resp)
                          (remove_pending r s)
              end) by (cbn [step]; by rewrite Hr).
    rewrite <- Hstep. clear Hstep.
    destruct (read_site rd) eqn:Hsite.
    + destruct (wf_baseline s Hwf r rd Hr Hsite) as [(e & He & Hi) _].
      destruct resp as [|values].
      * rewrite (baseline_failure s r rd e Hr Hsite He).
        by eapply registry_ok_same; [..|exact Hreg].
      * destruct (baseline_success s r rd e values Hr Hsite He)
          as (Henvs & Htm & Hmon & _). cbn zeta in *.
        split; rewrite ?Henvs, ?Htm, ?Hmon.
        -- intros sid t [[<- <-]|[Hne Hm]]%lookup_insert_Some.
           ++ exists {| callback := read_env rd; delay := 5000 |}. eexists.
              split_and!; [apply lookup_insert_eq|apply lookup_insert_eq|done].
           ++ destruct (reg_live s Hreg sid t Hm) as (tm & e1 & Ht1 & He1 & Hs1).
              pose proof (wf_monitor s Hwf _ _ Hm).
              exists tm. rewrite lookup_insert_ne by lia.
              destruct (decide (read_env rd = callback tm)) as [Heq|Hneq].
              ** rewrite <- Heq, lookup_insert_eq. eexists. split_and!; try done.
                 fields. congruence.
              ** exists e1. by rewrite lookup_insert_ne.
        -- intros c e1 t tm [[<- <-]|[Hne He1]]%lookup_insert_Some Hi1; fields.
           ++ injection Hi1 as <-. rewrite lookup_insert_eq. by intros [= <-].
           ++ destruct (wf_env s Hwf _ _ He1) as [_ Hint].
              destruct (Hint t Hi1) as [Hlt _].
              rewrite lookup_insert_ne by lia. by eapply (reg_owner s Hreg).
    + destruct (wf_tick s Hwf r rd Hr Hsite) as (e & He & [t0 Hi] & _).
      destruct resp as [|values].
      * rewrite (tick_failure s r rd e Hr Hsite He), Hi.
        split; prims; fields.
        -- intros sid t [Hne Hm]%lookup_delete_Some.
           destruct (reg_live s Hreg sid t Hm) as (tm & e1 & Ht1 & He1 & Hs1).
           exists tm, e1. split_and!; try done.
           rewrite lookup_delete_ne; [done|]. intros <-.
           pose proof (reg_owner s Hreg _ _ _ _ He Hi Ht1) as Hcb.
           rewrite Hcb in He1. congruence.
        -- intros c e1 t tm He1 Hi1 [_ Htm]%lookup_delete_Some.
           by eapply (reg_owner s Hreg).
      * destruct (tick_success s r rd e values Hr Hsite He)
          as (Henvs & _ & Htm & Hmon & _). cbn zeta in *.
        split; rewrite ?Henvs, ?Htm, ?Hmon.
        -- intros sid t Hm.
           destruct (reg_live s Hreg sid t Hm) as (tm & e1 & Ht1 & He1 & Hs1).
           exists tm.
           destruct (decide (read_env rd = callback tm)) as [Heq|Hneq].
           ** rewrite <- Heq, lookup_insert_eq. eexists. split_and!; try done.
              fields. congruence.
           ** exists e1. by rewrite lookup_insert_ne.
        -- intros c e1 t tm [[<- <-]|[Hne He1]]%lookup_insert_Some Hi1; fields.
           ++ by eapply (reg_owner s Hreg).
           ++ by eapply (reg_owner s Hreg).
Qed.

Lemma registry_ok_run evs : registry_ok (run init evs).
Proof.
  induction evs as [|ev evs IH] using rev_ind; [apply registry_ok_init|].
  rewrite run_snoc. apply registry_ok_step; [apply wf_run, wf_init|done].
Qed.

(** A handle found in [activeMonitors] is always a live timer, and its
    closure was created by the socket it is registered for. *)
Theorem registered_handle_is_live_and_owned evs sid t :
  activeMonitors (run init evs) !! sid = Some t →
  ∃ tm e, timers (run init evs) !! t = Some tm ∧
          envs (run init evs) !! callback tm = Some e ∧
          env_socket e = sid ∧ interval e = Some t.
Proof.
  intros Hm.
  destruct (reg_live _ (registry_ok_run evs) sid t Hm) as (tm & e & Ht & He & Hs).
  destruct (wf_timer _ (wf_run init evs wf_init) t tm Ht) as (e' & He' & Hi & _).
  exists tm, e. split_and!; try done. congruence.
Qed.

Lemma registered_handle_is_live_and_owned_witness :
  ∃ tm e, timers (run init (monitoring "sheetA" sheet3)) !! 2 = Some tm ∧
          envs (run init (monitoring "sheetA" sheet3)) !! callback tm = Some e ∧
          env_socket e = "s1" ∧ interval e = Some 2.
Proof.
  apply (registered_handle_is_live_and_owned (monitoring "sheetA" sheet3) "s1" 2).
  vm_compute; reflexivity.
Defined.

(** ** What one turn of the event loop emits *)

Lemma js_slice_nonneg {A} (l : list A) (k : Z) :
  (0 ≤ k)%Z → js_slice l k = drop (Z.to_nat k) l.
Proof.
  intros Hk. rewrite <- (Z2Nat.id k) at 1 by done. apply js_slice_drop.
Qed.

(** One turn emits at most one message; the message is well formed and
    goes to the socket of the event. *)
Lemma emitted_step s ev :
  wf s →
  ∃ ms, emitted (step s ev) = emitted s ++ ms ∧ length ms ≤ 1 ∧
        Forall (λ m, message_ok m ∧ event_socket s ev = Some m.1.1) ms.
Proof.
  intros Hwf.
  assert (Hnil : ∀ s', emitted s' = emitted s →
            ∃ ms, emitted s' = emitted s ++ ms ∧ length ms ≤ 1 ∧
                  Forall (λ m, message_ok m ∧ event_socket s ev = Some m.1.1) ms).
  { intros s' ->. exists []. rewrite app_nil_r. split_and!; [done|cbn; lia|done]. }
  destruct ev as [sid tk|sid id|sid|sid|t|r resp]; cbn [step].
  - apply Hnil. unfold on_connection. by destruct (sockets s !! sid).
  - destruct (is_connected sid s); [|by apply Hnil]. apply Hnil.
    unfold on_start_monitoring. by destruct (falsy id || _).
  - destruct (is_connected sid s); [|by apply Hnil]. apply Hnil.
    unfold on_stop_monitoring. by destruct (activeMonitors s !! sid).
  - destruct (is_connected sid s); [|by apply Hnil]. apply Hnil.
    unfold on_disconnect, on_stop_monitoring.
    by destruct (activeMonitors s !! sid).
  - destruct (timers s !! t) as [tm|]; [|by apply Hnil]. apply Hnil.
    unfold interval_callback. by destruct (envs s !! callback tm).
  - destruct (pending s !! r) as [rd|] eqn:Hr; [|by apply Hnil].
    assert (Hstep : step s (Resolve r resp) =
              match read_site rd with
              | Baseline => start_monitoring_resume (read_env rd)
                              (checkLeads resp) (remove_pending r s)
              | Tick => interval_resume (read_env rd) (checkLeads resp)
                          (remove_pending r s)
              end) by (cbn [step]; by rewrite Hr).
    rewrite <- Hstep. clear Hstep.
    assert (Hsock : ∀ e, envs s !! read_env rd = Some e →
              event_socket s (Resolve r resp) = Some (env_socket e)).
    { intros e He. cbn [event_socket]. rewrite Hr. cbn. by rewrite He. }
    destruct (read_site rd) eqn:Hsite.
    + destruct (wf_baseline s Hwf r rd Hr Hsite) as [(e & He & Hi) _].
      rewrite (Hsock e He). destruct resp as [|values].
      * rewrite (baseline_failure s r rd e Hr Hsite He). prims; fields.
        eexists [_]. split_and!; [done|done|].
        apply Forall_singleton. split; [|done]. left. eauto.
      * destruct (baseline_success s r rd e values Hr Hsite He)
          as (_ & _ & _ & Hem & _). cbn zeta in Hem.
        exists []. rewrite Hem, app_nil_r. split_and!; [done|cbn; lia|done].
    + destruct (wf_tick s Hwf r rd Hr Hsite) as (e & He & Hi & Hn).
      rewrite (Hsock e He). destruct resp as [|values].
      * rewrite (tick_failure s r rd e Hr Hsite He).
        destruct (interval e); prims; fields;
          (eexists [_]; split_and!; [done|done|];
           apply Forall_singleton; split; [|done]; left; eauto).
      * destruct (tick_success s r rd e values Hr Hsite He)
          as (_ & Hem & _). cbn zeta in Hem. rewrite Hem.
        replace (lastRowCount e =? -1)%Z with false
          by (symmetry; apply Z.eqb_neq; lia).
        cbn [negb andb].
        destruct (Z.ltb_spec (lastRowCount e)
                    (Z.of_nat (length (default [] values)))) as [Hlt|Hge].
        -- eexists [_]. split_and!; [done|done|].
           apply Forall_singleton. split; [|done]. right.
           eexists _, _. split_and!; [done|done|..].
           ++ rewrite js_slice_nonneg by done. intros Hd.
              apply (f_equal length) in Hd. rewrite length_drop in Hd.
              cbn in Hd. lia.
           ++ rewrite js_slice_nonneg, length_drop by done. lia.
        -- exists []. rewrite app_nil_r. split_and!; [done|cbn; lia|done].
Qed.

(** Every message the server has emitted is an error with its text or a
    [new-leads] with at least one lead and a total that is at least the
    number of leads it carries. *)
Theorem emitted_messages_are_well_formed evs m :
  m ∈ emitted (run init evs) → message_ok m.
Proof.
  induction evs as [|ev evs IH] using rev_ind.
  - cbn. by intros ?%elem_of_nil.
  - rewrite run_snoc.
    destruct (emitted_step (run init evs) ev (wf_run init evs wf_init))
      as (ms & -> & _ & Hms).
    intros [Hin|Hin]%elem_of_app; [by apply IH|].
    rewrite Forall_forall in Hms. by apply Hms.
Qed.

Lemma emitted_messages_are_well_formed_witness :
  message_ok
    ("s1", "new-leads",
     [("leads", VRows [["Di"; "di@example.org"]; ["Ed"; "ed@example.org"]]);
      ("total", VNum 5)]).
Proof.
  apply (emitted_messages_are_well_formed
           (monitoring "sheetA" sheet3 ++
            [Fire 2; Resolve 3 (ApiValues (Some sheet5))])).
  vm_compute. apply list_elem_of_here.
Defined.

(** ** Connections do not interfere *)






(** ** Credentials of the reads *)

Lemma session_tokens_step s ev sid :
  is_Some (session_tokens sid s) →
  session_tokens sid (step s ev) = session_tokens sid s.
Proof.
  intros Htk. unfold session_tokens in *.
  assert (Hsame : ∀ s', sockets s' = sockets s →
            (sockets s' !! sid ≫= tokens) = (sockets s !! sid ≫= tokens))
    by (by intros s' ->).
  destruct ev as [sid0 tk|sid0 id|sid0|sid0|t|r resp]; cbn [step].
  - unfold on_connection. destruct (sockets s !! sid0) eqn:Hs0; [done|].
    fields. rewrite lookup_insert_ne; [done|]. intros <-.
    rewrite Hs0 in Htk. by destruct Htk.
  - destruct (is_connected sid0 s); [|done]. apply Hsame.
    unfold on_start_monitoring. by destruct (falsy id || _).
  - destruct (is_connected sid0 s); [|done]. apply Hsame.
    unfold on_stop_monitoring. by destruct (activeMonitors s !! sid0).
  - destruct (is_connected sid0 s); [|done].
    unfold on_disconnect. fields.
    replace (sockets (on_stop_monitoring sid0 s)) with (sockets s)
      by (unfold on_stop_monitoring; by destruct (activeMonitors s !! sid0)).
    destruct (decide (sid0 = sid)) as [->|Hne].
    + rewrite lookup_alter_eq. by destruct (sockets s !! sid).
    + by rewrite lookup_alter_ne.
  - destruct (timers s !! t) as [tm|]; [|done]. apply Hsame.
    unfold interval_callback. by destruct (envs s !! callback tm).
  - destruct (pending s !! r) as [rd|]; [|done]. apply Hsame.
    destruct (read_site rd).
    + unfold start_monitoring_resume. destruct (envs _ !! _); [|done].
      by destruct (checkLeads resp).
    + unfold interval_resume. destruct (envs _ !! _) as [e|]; [|done].
      destruct (checkLeads resp); [by destruct (negb _ && _)|].
      by destruct (interval e).
Qed.

Lemma creds_ok_init : creds_ok init.
Proof. split; unfold init; fields; intros *; by rewrite ?lookup_empty. Qed.

Lemma creds_ok_step s ev : creds_ok s → creds_ok (step s ev).
Proof.
  intros Hok.
  assert (Henv : ∀ c e, envs s !! c = Some e →
            falsy (spreadsheetId e) = false ∧
            is_Some (session_tokens (env_socket e) (step s ev))).
  { intros c e He. destruct (creds_env s Hok c e He) as [Hid Htk].
    split; [done|]. by rewrite session_tokens_step. }
  assert (Hsame : ∀ s', envs s' = envs s → pending s' = pending s →
            s' = step s ev → creds_ok s').
  { intros s' He Hp ->. split; rewrite ?He, ?Hp; [done|].
    apply (creds_read s Hok). }
  assert (Hdel : ∀ s' r, envs s' = envs s → pending s' = delete r (pending s) →
            s' = step s ev → creds_ok s').
  { intros s' r He Hp ->. split; rewrite ?He, ?Hp; [done|].
    intros r' rd' [_ Hr']%lookup_delete_Some. by apply (creds_read s Hok r'). }
  assert (Halt : ∀ s' r c f, envs s' = alter f c (envs s) →
            (∀ e, env_socket (f e) = env_socket e ∧
                  spreadsheetId (f e) = spreadsheetId e) →
            pending s' = delete r (pending s) → s' = step s ev → creds_ok s').
  { intros s' r c f He Hf Hp ->. split; rewrite ?He, ?Hp.
    - intros c' e' [[-> (e & He' & ->)]|[_ He']]%lookup_alter_Some.
      + destruct (Hf e) as [-> ->]. by eapply Henv.
      + by eapply Henv.
    - intros r' rd' [_ Hr']%lookup_delete_Some. by apply (creds_read s Hok r'). }
  destruct ev as [sid tk|sid id|sid|sid|t|r resp].
  - eapply Hsame; [..|done]; cbn [step]; unfold on_connection;
      by destruct (sockets s !! sid).
  - cbn [step] in *. destruct (is_connected sid s); [|by apply Hsame].
    unfold on_start_monitoring in *.
    destruct (falsy id) eqn:Hid;
      [cbn [orb] in *; by apply Hsame|].
    destruct (bool_decide (is_Some (session_tokens sid s))) eqn:Htk;
      [|cbn [orb negb] in *; by apply Hsame].
    apply bool_decide_eq_true in Htk. cbn [orb negb] in *.
    split; prims; fields.
    + intros c e [[<- <-]|[_ He]]%lookup_insert_Some; fields; [done|].
      by eapply Henv.
    + intros r rd [[<- <-]|[_ Hr]]%lookup_insert_Some; fields; [done|].
      by apply (creds_read s Hok r).
  - eapply Hsame; [..|done]; cbn [step]; destruct (is_connected sid s);
      try done; unfold on_stop_monitoring;
      by destruct (activeMonitors s !! sid).
  - eapply Hsame; [..|done]; cbn [step]; destruct (is_connected sid s);
      try done; unfold on_disconnect, on_stop_monitoring;
      by destruct (activeMonitors s !! sid).
  - cbn [step] in *. destruct (timers s !! t) as [tm|]; [|by apply Hsame].
    unfold interval_callback in *.
    destruct (envs s !! callback tm) as [e|] eqn:He; [|by apply Hsame].
    destruct (creds_env s Hok _ _ He) as [Hid Htk].
    split; prims; fields; [done|].
    intros r rd [[<- <-]|[_ Hr]]%lookup_insert_Some; fields; [done|].
    by apply (creds_read s Hok r).
  - cbn [step] in *. destruct (pending s !! r) as [rd|]; [|by apply Hsame].
    destruct (read_site rd).
    + unfold start_monitoring_resume in *.
      replace (envs (remove_pending r s)) with (envs s) in * by done.
      destruct (envs s !! read_env rd) as [e|]; [|by apply (Hdel _ r)].
      destruct (checkLeads resp); [|by apply (Hdel _ r)].
      eapply (Halt _ r (read_env rd)); [|..|done]; prims; fields;
        [apply alter_alter_eq|done|done].
    + unfold interval_resume in *.
      replace (envs (remove_pending r s)) with (envs s) in * by done.
      destruct (envs s !! read_env rd) as [e|]; [|by apply (Hdel _ r)].
      destruct (checkLeads resp) as [rows|].
      * destruct (negb _ && _); by eapply (Halt _ r).
      * destruct (interval e); by apply (Hdel _ r).
Qed.

(** The socket.io server never calls [checkLeads] without tokens or with
    a falsy [spreadsheetId]: every read in flight, baseline or tick, was
    called with both. *)
Theorem reads_carry_credentials evs r rd :
  pending (run init evs) !! r = Some rd →
  falsy (read_spreadsheetId rd) = false ∧ is_Some (read_tokens rd).
Proof.
  intros Hr. eapply creds_read; [|exact Hr]. clear Hr.
  induction evs as [|ev evs IH] using rev_ind; [apply creds_ok_init|].
  rewrite run_snoc. by apply creds_ok_step.
Qed.

Lemma reads_carry_credentials_witness :
  falsy (Some "sheetA") = false ∧ is_Some (Some "tok").
Proof.
  apply (reads_carry_credentials (monitoring "sheetA" sheet3 ++ [Fire 2]) 3
           {| read_env := 0; read_site := Tick; read_tokens := Some "tok";
              read_spreadsheetId := Some "sheetA" |}).
  vm_compute; reflexivity.
Defined.

(** ** A poll failure and the registry *)



(** ** Emission over several reads *)

Lemma resolve_reads_emitted_witness :
  let s := run init (monitoring "sheetA" sheet3 ++ [Fire 2; Fire 2]) in
  emitted (resolve_reads s [(3, Some sheet3); (4, Some sheet5)]) =
    emitted s ++ new_leads_batches "s1" 3 [sheet3; sheet5].
Proof.
  cbn zeta.
  apply (resolve_reads_emitted [(3, Some sheet3); (4, Some sheet5)]
           (run init (monitoring "sheetA" sheet3 ++ [Fire 2; Fire 2])) 0
           {| env_socket := "s1"; spreadsheetId := Some "sheetA";
              lastRowCount := 3; interval := Some 2 |} 3).
  - apply NoDup_cons. split; [by intros [= ]%list_elem_of_singleton|].
    apply NoDup_singleton.
  - intros r [->|[->|[]%elem_of_nil]%elem_of_cons]%elem_of_cons;
      eexists; (split; [vm_compute; reflexivity|done]).
  - vm_compute; reflexivity.
  - done.
Defined.

(** With a source that only grows by appending, the rows emitted over a
    run of ticks are the rows past the baseline, each once and in source
    order: the rows of the baseline are never emitted and no appended row
    is skipped or repeated. *)
Theorem appended_rows_are_emitted_once s t tm e before reads :
  timers s !! t = Some tm → envs s !! callback tm = Some e →
  lastRowCount e = Z.of_nat (length before) →
  append_only before (default [] <$> reads) →
  ∃ out, emitted (run_ticks t s reads) = emitted s ++ out ∧
         before ++ all_leads out = last_rows before (default [] <$> reads) ∧
         Forall (λ m, m.1 = (env_socket e, "new-leads")) out.
Proof.
  intros Ht He Hn Happ.
  exists (new_leads_batches (env_socket e) (length before) (default [] <$> reads)).
  split_and!.
  - by eapply run_ticks_emitted.
  - rewrite all_leads_append_only by done.
    destruct (append_only_last _ _ Happ) as [k ->].
    by rewrite drop_app_length.
  - generalize (length before). clear.
    induction (default [] <$> reads) as [|rows rs IH]; intros n; [done|].
    cbn [new_leads_batches]. apply Forall_app. split; [|apply IH].
    destruct (drop n rows); [done|]. by apply Forall_singleton.
Qed.

Lemma appended_rows_are_emitted_once_witness :
  let s := run init (monitoring "sheetA" sheet3) in
  ∃ out, emitted (run_ticks 2 s [Some sheet3; Some sheet5]) = emitted s ++ out ∧
         sheet3 ++ all_leads out =
           last_rows sheet3 (default [] <$> [Some sheet3; Some sheet5]) ∧
         Forall (λ m, m.1 = ("s1", "new-leads")) out.
Proof.
  cbn zeta.
  apply (appended_rows_are_emitted_once
           (run init (monitoring "sheetA" sheet3)) 2
           {| callback := 0; delay := 5000 |}
           {| env_socket := "s1"; spreadsheetId := Some "sheetA";
              lastRowCount := 3; interval := Some 2 |}
           sheet3 [Some sheet3; Some sheet5]);
    [vm_compute; reflexivity..|].
  cbn. split; [by exists []|]. split; [|done].
  by exists [["Di"; "di@example.org"]; ["Ed"; "ed@example.org"]].
Defined.

(** ** Stopping with a read in flight *)

Lemma stop_frame s sid ev :
  ev = StopMonitoring sid ∨ ev = Disconnect sid →
  is_connected sid s = true →
  envs (step s ev) = envs s ∧ pending (step s ev) = pending s ∧
  next_id (step s ev) = next_id s ∧ emitted (step s ev) = emitted s ∧
  activeMonitors (step s ev) !! sid = None ∧
  ∀ t tm, timers (step s ev) !! t = Some tm → timers s !! t = Some tm.
Proof.
  intros Hev Hc.
  destruct (activeMonitors s !! sid) as [t0|] eqn:Hm.
  - destruct (stop_state s sid t0 ev Hev Hc Hm) as (Ht & Hmon & He & Hp & Hn & Hem).
    rewrite Ht, Hmon. split_and!; try done; [apply lookup_delete_eq|].
    by intros t tm [_ H]%lookup_delete_Some.
  - destruct Hev as [-> | ->]; cbn [step]; rewrite Hc;
      unfold on_disconnect, on_stop_monitoring; by rewrite Hm.
Qed.

(** C3, as the code has it. [stop-monitoring] or [disconnect] never
    discards a read in flight and nothing re-checks liveness when the read
    resolves. When the read is a tick read of the session whose timer is
    registered for the connection, the timer is cleared, no tick and no
    read is started for the session afterwards, and the read is acted on
    as usual: its rows are diffed and emitted and [lastRowCount] is
    updated, or its failure is reported. When the read is the baseline
    read of the session, there is no timer yet and nothing of the session
    is cancelled: once the read resolves the timer is created and
    registered and it fires, although the stop came first. *)
Theorem stop_or_disconnect_with_a_read_in_flight evs sid r rd e ev :
  is_connected sid (run init evs) = true →
  pending (run init evs) !! r = Some rd →
  envs (run init evs) !! read_env rd = Some e → env_socket e = sid →
  ev = StopMonitoring sid ∨ ev = Disconnect sid →
  let s := run init evs in
  let s1 := step s ev in
  let c := read_env rd in
  pending s1 !! r = Some rd ∧ envs s1 !! c = Some e ∧ emitted s1 = emitted s ∧
  (read_site rd = Tick →
   ∀ t, activeMonitors s !! sid = Some t → interval e = Some t →
     (∀ evs',
        (∀ t' tm', timers (run s1 evs') !! t' = Some tm' → callback tm' ≠ c) ∧
        (∀ r' rd', pending (run s1 evs') !! r' = Some rd' →
                   read_env rd' = c → pending s !! r' = Some rd')) ∧
     (∀ values,
        let rows := default [] values in
        let len := Z.of_nat (length rows) in
        let s2 := step s1 (Resolve r (ApiValues values)) in
        emitted s2 =
          emitted s ++
          (if (lastRowCount e <? len)%Z
           then [(sid, "new-leads",
                  [("leads", VRows (js_slice rows (lastRowCount e)));
                   ("total", VNum len)])]
           else []) ∧
        lastRowCount <$> envs s2 !! c = Some len) ∧
     emitted (step s1 (Resolve r ApiThrows)) =
       emitted s ++ [(sid, "monitoring-error",
                      [("message", VStr "Lost connection to spreadsheet.")])]) ∧
  (read_site rd = Baseline →
   (∀ t tm, timers s1 !! t = Some tm → callback tm ≠ c) ∧
   activeMonitors s1 !! sid = None ∧
   (∀ values,
      let len := Z.of_nat (length (default [] values)) in
      let s2 := step s1 (Resolve r (ApiValues values)) in
      timers s2 !! next_id s = Some {| callback := c; delay := 5000 |} ∧
      activeMonitors s2 !! sid = Some (next_id s) ∧
      emitted s2 = emitted s ∧
      lastRowCount <$> envs s2 !! c = Some len ∧
      read_env <$> pending (step s2 (Fire (next_id s))) !! S (next_id s) = Some c) ∧
   emitted (step s1 (Resolve r ApiThrows)) =
     emitted s ++
     [(sid, "monitoring-error",
       [("message",
         VStr "Failed to access spreadsheet. Check the ID and permissions.")])]).
Proof.
  intros Hc Hr He Hs Hev. cbn zeta.
  pose proof (wf_run init evs wf_init) as Hwf.
  pose proof (registry_ok_run evs) as Hreg.
  set (s := run init evs) in *.
  destruct (stop_frame s sid ev Hev Hc) as (He1 & Hp1 & Hn1 & Hem1 & Hm1 & Ht1).
  split_and!.
  - by rewrite Hp1.
  - by rewrite He1.
  - done.
  - intros Hsite t Hm Hi.
    destruct (reg_live s Hreg sid t Hm) as (tm & e0 & Htm & _ & _).
    pose proof (reg_owner s Hreg _ _ _ _ He Hi Htm) as Hcb.
    destruct (stop_does_not_discard_the_read_in_flight evs sid t tm r rd ev)
      as (Hall & _ & (e' & He' & Hok & Hfail)); try done.
    cbn zeta in *. fold s in Hall, He', Hok, Hfail.
    rewrite Hcb in *. assert (e' = e) as -> by congruence.
    rewrite Hs in *. done.
  - intros Hsite.
    destruct (wf_baseline s Hwf r rd Hr Hsite) as [(e' & He' & Hi) _].
    assert (e' = e) as -> by congruence.
    assert (Hnone : ∀ t tm, timers (step s ev) !! t = Some tm →
              callback tm ≠ read_env rd).
    { intros t tm Htm%Ht1 Hcb.
      destruct (wf_timer s Hwf t tm Htm) as (e0 & He0 & Hi0 & _).
      rewrite Hcb, He in He0. congruence. }
    rewrite <- Hp1 in Hr. rewrite <- He1 in He.
    split_and!; [done|done| |].
    + intros values.
      destruct (baseline_success _ r rd e values Hr Hsite He)
        as (Henvs & Htm & Hmon & Hem & _ & _ & Hn2).
      cbn zeta in *. rewrite Hn1 in *.
      rewrite Htm, Hmon, Hem, Henvs, Hs, !lookup_insert_eq.
      split_and!; try done.
      set (s2 := step (step s ev) (Resolve r (ApiValues values))) in *.
      destruct (fire_state s2 (next_id s) {| callback := read_env rd; delay := 5000 |}
                  {| env_socket := env_socket e; spreadsheetId := spreadsheetId e;
                     lastRowCount := Z.of_nat (length (default [] values));
                     interval := Some (next_id s) |})
        as (_ & _ & _ & _ & Hp2).
      * rewrite Htm. apply lookup_insert_eq.
      * rewrite Henvs. apply lookup_insert_eq.
      * rewrite Hp2, Hn2, lookup_insert_eq. done.
    + rewrite (baseline_failure _ r rd e Hr Hsite He). prims; fields.
      by rewrite Hem1, Hs.
Qed.

Lemma stop_or_disconnect_with_a_read_in_flight_witness :
  let evs := [Connection "s1" (Some "tok"); StartMonitoring "s1" (Some "sheetA")] in
  let s1 := step (run init evs) (StopMonitoring "s1") in
  let s2 := step s1 (Resolve 1 (ApiValues (Some sheet3))) in
  pending s1 !! 1 =
    Some {| read_env := 0; read_site := Baseline; read_tokens := Some "tok";
            read_spreadsheetId := Some "sheetA" |} ∧
  timers s2 !! 2 = Some {| callback := 0; delay := 5000 |} ∧
  activeMonitors s2 !! "s1" = Some 2.
Proof.
  cbn zeta.
  destruct (stop_or_disconnect_with_a_read_in_flight
              [Connection "s1" (Some "tok"); StartMonitoring "s1" (Some "sheetA")]
              "s1" 1
              {| read_env := 0; read_site := Baseline; read_tokens := Some "tok";
                 read_spreadsheetId := Some "sheetA" |}
              {| env_socket := "s1"; spreadsheetId := Some "sheetA";
                 lastRowCount := -1; interval := None |}
              (StopMonitoring "s1"))
    as (Hr & _ & _ & _ & Hbase); [vm_compute; reflexivity..|by left|].
  split; [exact Hr|].
  destruct (Hbase eq_refl) as (_ & _ & Hok & _).
  destruct (Hok (Some sheet3)) as (Ht & Hm & _). split; [exact Ht|exact Hm].
Defined.

(** ** After a failed read *)

Lemma step_emits_at_most_one s ev :
  wf s →
  ∃ ms, emitted (step s ev) = emitted s ++ ms ∧ length ms ≤ 1.
Proof.
  intros Hwf. destruct (emitted_step s ev Hwf) as (ms & Hem & Hlen & _). eauto.
Qed.

Lemma resolve_pending s r resp :
  is_Some (pending s !! r) →
  pending (step s (Resolve r resp)) = delete r (pending s).
Proof.
  intros [rd Hr]. cbn [step]. rewrite Hr. destruct (read_site rd).
  - unfold start_monitoring_resume. destruct (envs _ !! _); [|done].
    by destruct (checkLeads resp).
  - unfold interval_resume. destruct (envs _ !! _) as [e|]; [|done].
    destruct (checkLeads resp); [by destruct (negb _ && _)|].
    by destruct (interval e).
Qed.

(** A closure without a live timer emits at most one message for each of
    its reads still in flight, and nothing else. *)
Lemma emitted_by_quiet c evs : ∀ s,
  wf s → quiet c s → length (emitted_by c s evs) ≤ size (reads_of c s).
Proof.
  induction evs as [|ev evs IH]; intros s Hwf Hq; [cbn; lia|].
  cbn [emitted_by]. rewrite length_app.
  destruct (quiet_step c s ev Hq) as [Hq' Hsub].
  specialize (IH (step s ev) (wf_step s ev Hwf) Hq').
  case_bool_decide as Henv.
  - destruct ev as [| | | |t|r resp]; cbn [step_env] in Henv; try done.
    + apply fmap_Some in Henv as (tm & Ht & Hcb).
      destruct Hq as (_ & Htm & _). by destruct (Htm t tm Ht).
    + apply fmap_Some in Henv as (rd & Hr & Hcb).
      destruct (step_emits_at_most_one s (Resolve r resp) Hwf) as (ms & Hem & Hlen).
      rewrite Hem, drop_app_length.
      assert (Hin : reads_of c s !! r = Some rd).
      { unfold reads_of. by apply map_lookup_filter_Some. }
      assert (Hdel : reads_of c (step s (Resolve r resp)) = delete r (reads_of c s)).
      { unfold reads_of. rewrite resolve_pending by eauto.
        apply map_filter_delete. }
      rewrite Hdel, map_size_delete_Some in IH by eauto.
      assert (size (reads_of c s) ≠ 0).
      { apply map_size_ne_0_lookup_2 with r. eauto. }
      lia.
  - cbn [length]. etrans; [exact IH|]. apply map_subseteq_size.
    apply map_subseteq_spec. intros r rd.
    unfold reads_of. rewrite !map_lookup_filter_Some. cbn.
    intros [Hr Hcb]. split; [|done]. by apply Hsub.
Qed.

(** C6, as the code has it. A read that fails, at the baseline or at a
    tick, makes the session emit exactly one error message for it. A
    failed baseline never creates a timer and leaves the registry as it
    is; a failed tick clears the session's own timer and deletes the
    registry entry of its connection. The failed call is over and none is
    started in its place; the session never has a live timer again and no
    read is ever started for it again. The session emits again only for
    reads of it that were already in flight when the failure came (ticks
    that overlap), at most one message for each; when no other read was in
    flight, the turns of the session emit nothing more. *)
Theorem read_failure_stops_the_polling evs r rd :
  pending (run init evs) !! r = Some rd →
  let s := run init evs in
  let s' := step s (Resolve r ApiThrows) in
  let c := read_env rd in
  ∃ e, envs s !! c = Some e ∧
    emitted s' =
      emitted s ++
      [(env_socket e, "monitoring-error",
        [("message",
          VStr match read_site rd with
               | Baseline =>
                 "Failed to access spreadsheet. Check the ID and permissions."
               | Tick => "Lost connection to spreadsheet."
               end)])] ∧
    pending s' = delete r (pending s) ∧ next_id s' = next_id s ∧
    envs s' = envs s ∧
    timers s' = match read_site rd, interval e with
                | Tick, Some t => delete t (timers s)
                | _, _ => timers s
                end ∧
    (read_site rd = Tick → is_Some (interval e)) ∧
    activeMonitors s' = match read_site rd with
                        | Baseline => activeMonitors s
                        | Tick => delete (env_socket e) (activeMonitors s)
                        end ∧
    ∀ evs',
      (∀ t tm, timers (run s' evs') !! t = Some tm → callback tm ≠ c) ∧
      (∀ r' rd', pending (run s' evs') !! r' = Some rd' → read_env rd' = c →
                 r' ≠ r ∧ pending s !! r' = Some rd') ∧
      length (emitted_by c s' evs') ≤ size (reads_of c s') ∧
      ((∀ r' rd', pending s !! r' = Some rd' → read_env rd' = c → r' = r) →
       emitted_by c s' evs' = []).
Proof.
  intros Hr. cbn zeta.
  pose proof (wf_run init evs wf_init) as Hwf.
  destruct (read_failure_ends_the_session evs r rd Hr)
    as (_ & Hp & Hn & _ & _ & Hall).
  cbn zeta in *.
  pose proof (quiet_after_failure _ r rd Hwf Hr) as Hq.
  set (s := run init evs) in *. clearbody s.
  assert (Hbound : ∀ evs',
            length (emitted_by (read_env rd) (step s (Resolve r ApiThrows)) evs')
            ≤ size (reads_of (read_env rd) (step s (Resolve r ApiThrows)))).
  { intros evs'. apply emitted_by_quiet; [by apply wf_step|done]. }
  assert (Hlast : ∀ evs',
            (∀ r' rd', pending s !! r' = Some rd' → read_env rd' = read_env rd →
                       r' = r) →
            emitted_by (read_env rd) (step s (Resolve r ApiThrows)) evs' = []).
  { intros evs' Honly. apply length_zero_iff_nil.
    specialize (Hbound evs').
    replace (reads_of (read_env rd) (step s (Resolve r ApiThrows)))
      with (∅ : gmap nat read) in Hbound; [rewrite map_size_empty in Hbound; lia|].
    symmetry. apply map_empty. intros r'. unfold reads_of.
    apply map_lookup_filter_None. rewrite Hp. right. intros rd' [Hne Hr']%lookup_delete_Some Hcb.
    cbn in Hcb. destruct Hne. symmetry. eauto. }
  destruct (read_site rd) eqn:Hsite.
  - destruct (wf_baseline s Hwf r rd Hr Hsite) as [(e & He & Hi) _].
    exists e. split; [done|].
    rewrite (baseline_failure s r rd e Hr Hsite He) in *. prims; fields.
    split_and!; try done. intros evs'. destruct (Hall evs'). split_and!; eauto.
  - destruct (wf_tick s Hwf r rd Hr Hsite) as (e & He & [t Hi] & _).
    exists e. split; [done|].
    rewrite (tick_failure s r rd e Hr Hsite He) in *. rewrite Hi in *.
    prims; fields.
    split_and!; try done.
    intros evs'. destruct (Hall evs'). split_and!; eauto.
Qed.

Lemma read_failure_stops_the_polling_witness :
  let evs := monitoring "sheetA" sheet3 ++ [Fire 2] in
  let s' := step (run init evs) (Resolve 3 ApiThrows) in
  pending (run init evs) !! 3 =
    Some {| read_env := 0; read_site := Tick; read_tokens := Some "tok";
            read_spreadsheetId := Some "sheetA" |} ∧
  ∀ evs',
    (∀ t tm, timers (run s' evs') !! t = Some tm → callback tm ≠ 0) ∧
    emitted_by 0 s' evs' = [].
Proof.
  cbn zeta.
  assert (Hr : pending (run init (monitoring "sheetA" sheet3 ++ [Fire 2])) !! 3 =
               Some {| read_env := 0; read_site := Tick;
                       read_tokens := Some "tok";
                       read_spreadsheetId := Some "sheetA" |})
    by (vm_compute; reflexivity).
  split; [exact Hr|]. intros evs'.
  destruct (read_failure_stops_the_polling _ _ _ Hr)
    as (e & _ & _ & _ & _ & _ & _ & _ & _ & Hall).
  destruct (Hall evs') as (Htm & _ & _ & Hnone). split; [exact Htm|].
  apply Hnone. intros r' rd' Hr' Hcb.
  destruct (decide (r' = 3)) as [->|Hne]; [done|].
  exfalso. revert Hr'.
  replace (pending (run init (monitoring "sheetA" sheet3 ++ [Fire 2])))
    with (<[3 := {| read_env := 0; read_site := Tick; read_tokens := Some "tok";
                    read_spreadsheetId := Some "sheetA" |}]> (∅ : gmap nat read))
    by (vm_compute; reflexivity).
  rewrite lookup_insert_ne by done. by rewrite lookup_empty.
Defined.

(** C6 as stated fails when ticks overlap: two reads of one session are in
    flight, the first fails and ends the session, and the second still
    makes the session emit, a second error when it fails too, new leads
    when it answers. *)
Lemma read_failure_counterexample :
  let s := run init (monitoring "sheetA" sheet3 ++ [Fire 2; Fire 2]) in
  let failed := ("s1", "monitoring-error",
                 [("message", VStr "Lost connection to spreadsheet.")]) in
  read_env <$> pending s !! 3 = Some 0 ∧ read_env <$> pending s !! 4 = Some 0 ∧
  timers (step s (Resolve 3 ApiThrows)) !! 2 = None ∧
  emitted (run s [Resolve 3 ApiThrows; Resolve 4 ApiThrows]) = [failed; failed] ∧
  emitted (run s [Resolve 3 ApiThrows; Resolve 4 (ApiValues (Some sheet5))]) =
    [failed;
     ("s1", "new-leads",
      [("leads", VRows [["Di"; "di@example.org"]; ["Ed"; "ed@example.org"]]);
       ("total", VNum 5)])].
Proof. vm_compute. done. Qed.

End SocketIoMore.

(** * Further properties of the two [ws] servers *)

Module WsMore.
Import Ws WsInv.

Ltac ws_prims :=
  unfold interval_callback, interval_resume, start_monitoring_baseline,
    on_connection, on_close, clear_monitorInterval, remove_pending,
    set_lastRowCount, set_monitorInterval, new_env, call_checkLeads,
    clearInterval, setInterval, ws_send in *.

Ltac ws_fields :=
  cbn [conns timers envs pending next_id sent env_conn env_tokens
       spreadsheetId lastRowCount sessionTokens monitorInterval is_open
       read_env read_site read_tokens read_spreadsheetId callback delay
       fst snd] in *.

(** ** The shared event loop *)

Section event_loop.

Variable start : string → option string → option string → state → state.
Variable resume : nat → option (list row) → state → state.
Variable P : option string → option string → Prop.

(** What the two servers' own parts of [start-monitoring] have to keep. *)
Hypothesis start_wf : ∀ cid id tk s, wf s → wf (start cid id tk s).
Hypothesis resume_wf : ∀ r rd rows s,
  wf s → pending s !! r = Some rd → read_site rd = Baseline →
  wf (resume (read_env rd) rows (remove_pending r s)).
Hypothesis start_calls : ∀ cid id tk s,
  calls_satisfy P s → calls_satisfy P (start cid id tk s).
Hypothesis resume_calls : ∀ c rows s,
  calls_satisfy P s → calls_satisfy P (resume c rows s).

Lemma ws_wf_frame s s' :
  timers s' = timers s → envs s' = envs s → pending s' = pending s →
  next_id s' = next_id s → wf s → wf s'.
Proof. intros Ht He Hp Hn []. split; rewrite ?Ht, ?He, ?Hp, ?Hn; done. Qed.

Lemma ws_wf_clear_monitorInterval cid s : wf s → wf (clear_monitorInterval cid s).
Proof.
  intros Hwf. unfold clear_monitorInterval.
  destruct (_ ≫= _) as [t|]; [|done].
  destruct Hwf. split; ws_prims; ws_fields; try done.
  intros t' tm [_ Ht]%lookup_delete_Some. eauto.
Qed.

Lemma ws_wf_remove_pending r s : wf s → wf (remove_pending r s).
Proof.
  intros []. split; ws_prims; ws_fields; try done.
  - intros r' rd [_ Hr]%lookup_delete_Some. eauto.
  - intros r' rd [_ Hr]%lookup_delete_Some. eauto.
Qed.

Lemma ws_wf_set_lastRowCount c n s : (0 ≤ n)%Z → wf s → wf (set_lastRowCount c n s).
Proof.
  intros Hn Hwf. split; ws_prims; ws_fields.
  - intros t tm Ht. destruct (wf_timer s Hwf t tm Ht) as (e & He & Hc).
    destruct (decide (c = callback tm)) as [->|Hne].
    + rewrite lookup_alter_eq, He. cbn. eauto.
    + rewrite lookup_alter_ne by done. eauto.
  - intros r rd Hr Hsite. destruct (wf_tick s Hwf r rd Hr Hsite) as (e & He & Hc).
    destruct (decide (c = read_env rd)) as [->|Hne].
    + rewrite lookup_alter_eq, He. cbn. eauto.
    + rewrite lookup_alter_ne by done. eauto.
  - intros r rd Hr Hsite. apply lookup_alter_is_Some.
    by eapply (wf_baseline s Hwf).
  - intros c' e' [[-> (e & He & _)]|[_ He]]%lookup_alter_Some;
      by eapply (wf_env s Hwf).
Qed.

Lemma ws_wf_interval_resume c rows s :
  wf s → wf (interval_resume c rows s).
Proof.
  intros Hwf. unfold interval_resume. destruct (envs s !! c) as [e|]; [|done].
  destruct rows as [rows|].
  - apply ws_wf_set_lastRowCount; [lia|].
    destruct (negb _ && _); [|done]. by eapply ws_wf_frame; [..|exact Hwf].
  - apply ws_wf_clear_monitorInterval. by eapply ws_wf_frame; [..|exact Hwf].
Qed.

Lemma ws_wf_step s ev : wf s → wf (step start resume s ev).
Proof.
  intros Hwf. destruct ev as [cid tk|cid id tk|cid|cid|t|r resp]; cbn [step].
  - unfold on_connection. destruct (conns s !! cid); [done|].
    by eapply ws_wf_frame; [..|exact Hwf].
  - destruct (is_connected cid s); [|done]. by apply start_wf.
  - destruct (is_connected cid s); [|done]. by apply ws_wf_clear_monitorInterval.
  - destruct (is_connected cid s); [|done].
    by eapply ws_wf_frame; [..|apply (ws_wf_clear_monitorInterval cid), Hwf].
  - destruct (timers s !! t) as [tm|] eqn:Ht; [|done].
    destruct (wf_timer s Hwf t tm Ht) as (e & He & Hc).
    unfold interval_callback. rewrite He. split; ws_prims; ws_fields.
    + apply (wf_timer s Hwf).
    + intros r rd [[<- <-]|[_ Hr]]%lookup_insert_Some Hsite; ws_fields;
        [eauto|by eapply (wf_tick s Hwf)].
    + intros r rd [[<- <-]|[_ Hr]]%lookup_insert_Some Hsite; ws_fields;
        [done|by eapply (wf_baseline s Hwf)].
    + intros c e' He'. pose proof (wf_env s Hwf _ _ He'). lia.
  - destruct (pending s !! r) as [rd|] eqn:Hr; [|done].
    destruct (read_site rd) eqn:Hsite.
    + by apply resume_wf.
    + by apply ws_wf_interval_resume, ws_wf_remove_pending.
Qed.

Lemma calls_frame s s' :
  envs s' = envs s → pending s' = pending s →
  calls_satisfy P s → calls_satisfy P s'.
Proof. intros He Hp []. split; rewrite ?He, ?Hp; done. Qed.

Lemma calls_remove_pending r s :
  calls_satisfy P s → calls_satisfy P (remove_pending r s).
Proof.
  intros []. split; ws_prims; ws_fields; [done|].
  intros r' rd [_ Hr]%lookup_delete_Some. eauto.
Qed.

Lemma calls_set_lastRowCount c n s :
  calls_satisfy P s → calls_satisfy P (set_lastRowCount c n s).
Proof.
  intros []. split; ws_prims; ws_fields; [|done].
  intros c' e' [[-> (e & He & ->)]|[_ He]]%lookup_alter_Some; ws_fields; eauto.
Qed.

Lemma calls_step s ev :
  calls_satisfy P s → calls_satisfy P (step start resume s ev).
Proof.
  intros Hok. destruct ev as [cid tk|cid id tk|cid|cid|t|r resp]; cbn [step].
  - unfold on_connection. destruct (conns s !! cid); [done|].
    by eapply calls_frame; [..|exact Hok].
  - destruct (is_connected cid s); [|done]. by apply start_calls.
  - destruct (is_connected cid s); [|done]. unfold clear_monitorInterval.
    destruct (_ ≫= _); [|done]. by eapply calls_frame; [..|exact Hok].
  - destruct (is_connected cid s); [|done].
    eapply calls_frame; [..|exact Hok]; unfold on_close, clear_monitorInterval;
      by destruct (_ ≫= _).
  - destruct (timers s !! t) as [tm|]; [|done]. unfold interval_callback.
    destruct (envs s !! callback tm) as [e|] eqn:He; [|done].
    split; ws_prims; ws_fields; [apply (calls_env P s Hok)|].
    intros r rd [[<- <-]|[_ Hr]]%lookup_insert_Some; ws_fields.
    + by apply (calls_env P s Hok _ _ He).
    + by apply (calls_read P s Hok r).
  - destruct (pending s !! r) as [rd|]; [|done].
    destruct (read_site rd).
    + by apply resume_calls, calls_remove_pending.
    + unfold interval_resume.
      replace (envs (remove_pending r s)) with (envs s) by done.
      destruct (envs s !! read_env rd) as [e|]; [|by apply calls_remove_pending].
      destruct (checkLeads resp) as [rows|].
      * apply calls_set_lastRowCount.
        destruct (negb _ && _); [|by apply calls_remove_pending].
        by eapply calls_frame; [..|apply (calls_remove_pending r), Hok].
      * unfold clear_monitorInterval. destruct (_ ≫= _);
          by eapply calls_frame; [..|apply (calls_remove_pending r), Hok].
Qed.

End event_loop.

Lemma ws_wf_init : wf init.
Proof. split; unfold init; ws_fields; intros *; by rewrite ?lookup_empty. Qed.

Lemma calls_init P : calls_satisfy P init.
Proof. split; unfold init; ws_fields; intros *; by rewrite ?lookup_empty. Qed.

(** The baseline of either server keeps the invariant. *)
Lemma ws_wf_new_baseline e tk id s :
  wf s → wf (call_checkLeads (next_id s) Baseline tk id (new_env e s).2).
Proof.
  intros Hwf. split; ws_prims; ws_fields.
  - intros t tm Ht. destruct (wf_timer s Hwf t tm Ht) as (e' & He' & Hc).
    exists e'. split; [|done]. rewrite lookup_insert_ne; [done|].
    pose proof (wf_env s Hwf _ _ He'). lia.
  - intros r rd [[<- <-]|[_ Hr]]%lookup_insert_Some Hsite; ws_fields; [done|].
    destruct (wf_tick s Hwf r rd Hr Hsite) as (e' & He' & Hc).
    exists e'. split; [|done]. rewrite lookup_insert_ne; [done|].
    pose proof (wf_env s Hwf _ _ He'). lia.
  - intros r rd [[<- <-]|[_ Hr]]%lookup_insert_Some Hsite; ws_fields.
    + rewrite lookup_insert_eq. eauto.
    + destruct (wf_baseline s Hwf r rd Hr Hsite) as [e' He'].
      exists e'. rewrite lookup_insert_ne; [done|].
      pose proof (wf_env s Hwf _ _ He'). lia.
  - intros c e' [[<- <-]|[_ He']]%lookup_insert_Some; [lia|].
    pose proof (wf_env s Hwf _ _ He'). lia.
Qed.

Lemma ws_wf_start_monitoring_baseline c rows0 s :
  wf s → wf (start_monitoring_baseline c rows0 s).
Proof.
  intros Hwf. unfold start_monitoring_baseline.
  destruct (envs s !! c) as [e|] eqn:He; [|done].
  pose proof (ws_wf_set_lastRowCount c (Z.of_nat (length rows0)) s
                ltac:(lia) Hwf) as Hwf1.
  set (s1 := set_lastRowCount c _ s) in *.
  assert (He1 : ∃ e1, envs s1 !! c = Some e1 ∧ (0 ≤ lastRowCount e1)%Z).
  { subst s1. ws_prims; ws_fields. rewrite lookup_alter_eq, He. cbn.
    eexists. split; [done|]. ws_fields. lia. }
  clearbody s1. destruct He1 as (e1 & He1 & Hc1).
  split; ws_prims; ws_fields.
  - intros t tm [[<- <-]|[_ Ht]]%lookup_insert_Some; ws_fields; [eauto|].
    by eapply (wf_timer s1 Hwf1).
  - apply (wf_tick s1 Hwf1).
  - apply (wf_baseline s1 Hwf1).
  - intros c' e' He'. pose proof (wf_env s1 Hwf1 _ _ He'). lia.
Qed.

Lemma server_ts_wf evs : wf (ServerTs.run init evs).
Proof.
  induction evs as [|ev evs IH] using rev_ind; [apply ws_wf_init|].
  unfold ServerTs.run. rewrite foldl_app. cbn [foldl].
  apply ws_wf_step; [| |exact IH].
  - intros cid id tk s Hwf. unfold ServerTs.on_start_monitoring.
    destruct (negb _); [by eapply ws_wf_frame; [..|exact Hwf]|].
    by apply ws_wf_new_baseline.
  - intros r rd rows s Hwf Hr Hsite. unfold ServerTs.start_monitoring_resume.
    pose proof (ws_wf_remove_pending r s Hwf) as Hwf'.
    destruct (envs _ !! _); [|done]. destruct rows.
    + by apply ws_wf_start_monitoring_baseline.
    + by eapply ws_wf_frame; [..|exact Hwf'].
Qed.

Lemma hono_wf evs : wf (Hono.run init evs).
Proof.
  induction evs as [|ev evs IH] using rev_ind; [apply ws_wf_init|].
  unfold Hono.run. rewrite foldl_app. cbn [foldl].
  apply ws_wf_step; [| |exact IH].
  - intros cid id tk s Hwf. unfold Hono.on_start_monitoring.
    destruct (falsy id || falsy tk); [done|]. by apply ws_wf_new_baseline.
  - intros r rd rows s Hwf Hr Hsite. unfold Hono.start_monitoring_resume.
    pose proof (ws_wf_remove_pending r s Hwf) as Hwf'.
    destruct (envs _ !! _); [|done]. destruct rows.
    + by apply ws_wf_start_monitoring_baseline.
    + by eapply ws_wf_frame; [..|exact Hwf'].
Qed.

(** In both [ws] servers a tick only ever runs in a closure whose
    [lastRowCount] is a row count: the test [lastRowCount !== -1] of the
    interval callback never fails, and [rows.slice(lastRowCount)] never
    gets a negative start. *)
Theorem ws_tick_runs_past_the_baseline evs r rd :
  (pending (ServerTs.run init evs) !! r = Some rd → read_site rd = Tick →
   ∃ e, envs (ServerTs.run init evs) !! read_env rd = Some e ∧
        (0 ≤ lastRowCount e)%Z) ∧
  (pending (Hono.run init evs) !! r = Some rd → read_site rd = Tick →
   ∃ e, envs (Hono.run init evs) !! read_env rd = Some e ∧
        (0 ≤ lastRowCount e)%Z).
Proof.
  split; intros Hr Hsite.
  - by eapply (wf_tick _ (server_ts_wf evs)).
  - by eapply (wf_tick _ (hono_wf evs)).
Qed.

Lemma ws_tick_runs_past_the_baseline_witness :
  ∃ e, envs (ServerTs.run init (monitoring "sheetA" SocketIo.sheet3 ++ [Fire 2]))
         !! 0 = Some e ∧ (0 ≤ lastRowCount e)%Z.
Proof.
  destruct (ws_tick_runs_past_the_baseline
              (monitoring "sheetA" SocketIo.sheet3 ++ [Fire 2]) 3
              {| read_env := 0; read_site := Tick; read_tokens := Some "tok";
                 read_spreadsheetId := Some "sheetA" |}) as [H _].
  apply H; vm_compute; reflexivity.
Defined.

(** ** Credentials of the reads *)

Lemma calls_new_baseline P e tk id s :
  P (env_tokens e) (spreadsheetId e) → P tk id →
  calls_satisfy P s →
  calls_satisfy P (call_checkLeads (next_id s) Baseline tk id (new_env e s).2).
Proof.
  intros He Hr Hok. split; ws_prims; ws_fields.
  - intros c e' [[<- <-]|[_ He']]%lookup_insert_Some; [done|].
    by apply (calls_env P s Hok c).
  - intros r rd [[<- <-]|[_ Hr']]%lookup_insert_Some; ws_fields; [done|].
    by apply (calls_read P s Hok r).
Qed.

Lemma calls_start_monitoring_baseline P c rows0 s :
  calls_satisfy P s → calls_satisfy P (start_monitoring_baseline c rows0 s).
Proof.
  intros Hok. unfold start_monitoring_baseline.
  destruct (envs s !! c); [|done].
  eapply calls_frame; [..|apply (calls_set_lastRowCount P c (Z.of_nat (length rows0))), Hok];
    done.
Qed.

Lemma server_ts_calls evs :
  calls_satisfy (λ tk _, is_Some tk) (ServerTs.run init evs).
Proof.
  induction evs as [|ev evs IH] using rev_ind; [apply calls_init|].
  unfold ServerTs.run. rewrite foldl_app. cbn [foldl].
  apply calls_step; [| |exact IH].
  - intros cid id tk s Hok. unfold ServerTs.on_start_monitoring.
    destruct (bool_decide _) eqn:Htk; cbn [negb].
    + apply bool_decide_eq_true in Htk. by apply calls_new_baseline.
    + by eapply calls_frame; [..|exact Hok].
  - intros c rows s Hok. unfold ServerTs.start_monitoring_resume.
    destruct (envs _ !! _); [|done]. destruct rows.
    + by apply calls_start_monitoring_baseline.
    + by eapply calls_frame; [..|exact Hok].
Qed.

Lemma hono_calls evs :
  calls_satisfy (λ tk id, falsy tk = false ∧ falsy id = false)
    (Hono.run init evs).
Proof.
  induction evs as [|ev evs IH] using rev_ind; [apply calls_init|].
  unfold Hono.run. rewrite foldl_app. cbn [foldl].
  apply calls_step; [| |exact IH].
  - intros cid id tk s Hok. unfold Hono.on_start_monitoring.
    destruct (falsy id) eqn:Hid; [done|].
    destruct (falsy tk) eqn:Htk; [done|]. cbn [orb].
    by apply calls_new_baseline.
  - intros c rows s Hok. unfold Hono.start_monitoring_resume.
    destruct (envs _ !! _); [|done]. destruct rows.
    + by apply calls_start_monitoring_baseline.
    + by eapply calls_frame; [..|exact Hok].
Qed.

(** [server.ts] never calls [checkLeads] without the tokens of the
    session cookie, and the Hono server never calls it with falsy tokens
    or a falsy [spreadsheetId]: this holds for every read in flight,
    baseline or tick. *)
Theorem ws_reads_carry_tokens evs r rd :
  (pending (ServerTs.run init evs) !! r = Some rd → is_Some (read_tokens rd)) ∧
  (pending (Hono.run init evs) !! r = Some rd →
   falsy (read_tokens rd) = false ∧ falsy (read_spreadsheetId rd) = false).
Proof.
  split; intros Hr.
  - by apply (calls_read _ _ (server_ts_calls evs) r).
  - by apply (calls_read _ _ (hono_calls evs) r).
Qed.

Lemma ws_reads_carry_tokens_witness :
  falsy (Some "tok") = false ∧ falsy (Some "sheetA") = false.
Proof.
  destruct (ws_reads_carry_tokens
              (monitoring "sheetA" SocketIo.sheet3 ++ [Fire 2]) 3
              {| read_env := 0; read_site := Tick; read_tokens := Some "tok";
                 read_spreadsheetId := Some "sheetA" |}) as [_ H].
  apply H; vm_compute; reflexivity.
Defined.

(** ** Stopping and failing *)

(** [stop-monitoring] on a [ws] server, any number of times, is
    [stop-monitoring] once: the timer in [monitorInterval] is cleared,
    [monitorInterval] keeps the dead handle, nothing is sent and no other
    timer is touched. *)
Theorem ws_stop_monitoring_idempotent s cid k n :
  conns s !! cid = Some k → is_open k = true →
  let s' := ServerTs.run s (replicate (S n) (StopMonitoring cid)) in
  s' = ServerTs.step s (StopMonitoring cid) ∧
  conns s' = conns s ∧ sent s' = sent s ∧ envs s' = envs s ∧
  pending s' = pending s ∧
  timers s' = match monitorInterval k with
              | Some t => delete t (timers s)
              | None => timers s
              end.
Proof.
  intros Hk Ho. cbn zeta.
  assert (Hc : is_connected cid s = true) by (unfold is_connected; by rewrite Hk).
  assert (H1 : ServerTs.step s (StopMonitoring cid) = clear_monitorInterval cid s).
  { unfold ServerTs.step. cbn [step]. by rewrite Hc. }
  assert (Hrep : ∀ m s1, conns s1 = conns s →
            clear_monitorInterval cid (clear_monitorInterval cid s1) =
              clear_monitorInterval cid s1 →
            ServerTs.run (clear_monitorInterval cid s1)
              (replicate m (StopMonitoring cid)) = clear_monitorInterval cid s1).
  { induction m as [|m IH]; intros s1 Hs1 Hidem; [done|].
    cbn [replicate ServerTs.run foldl]. unfold ServerTs.step at 2.
    cbn [step].
    replace (is_connected cid (clear_monitorInterval cid s1)) with true.
    - rewrite Hidem. by apply IH.
    - unfold is_connected, clear_monitorInterval.
      destruct (_ ≫= _); ws_prims; ws_fields; by rewrite Hs1, Hk. }
  replace (ServerTs.run s (replicate (S n) (StopMonitoring cid)))
    with (ServerTs.run (ServerTs.step s (StopMonitoring cid))
            (replicate n (StopMonitoring cid))) by done.
  rewrite H1, Hrep; [|done|].
  - unfold clear_monitorInterval. rewrite Hk. cbn.
    by destruct (monitorInterval k).
  - unfold clear_monitorInterval. rewrite Hk. cbn.
    destruct (monitorInterval k) as [t|] eqn:Hmk; [|by rewrite ?Hk; cbn; rewrite ?Hmk].
    ws_prims; ws_fields. rewrite Hk. cbn. rewrite Hmk. ws_fields.
    by rewrite delete_delete_eq.
Qed.

Lemma ws_stop_monitoring_idempotent_witness :
  let s := ServerTs.run init (monitoring "sheetA" SocketIo.sheet3) in
  let s' := ServerTs.run s (replicate 3 (StopMonitoring "c1")) in
  s' = ServerTs.step s (StopMonitoring "c1") ∧
  conns s' = conns s ∧ sent s' = sent s ∧ envs s' = envs s ∧
  pending s' = pending s ∧ timers s' = delete 2 (timers s).
Proof.
  cbn zeta.
  apply (ws_stop_monitoring_idempotent
           (ServerTs.run init (monitoring "sheetA" SocketIo.sheet3)) "c1"
           {| sessionTokens := Some "tok"; monitorInterval := Some 2;
              is_open := true |} 2);
    vm_compute; reflexivity.
Defined.

(** A failed tick read on [server.ts] sends one error and clears the
    timer held in [monitorInterval], the one created last on the
    connection, whichever session the read belongs to. After a second
    [start-monitoring] the failure of a read of the first session
    therefore stops the second session and leaves the first one's timer
    running. *)
Theorem server_ts_poll_failure_clears_the_latest_timer s r rd e k :
  pending s !! r = Some rd → read_site rd = Tick →
  envs s !! read_env rd = Some e → conns s !! env_conn e = Some k →
  let s' := ServerTs.step s (Resolve r ApiThrows) in
  sent s' = sent s ++ [(env_conn e,
                        [("type", VStr "error");
                         ("message", VStr "Lost connection to spreadsheet.")])] ∧
  timers s' = match monitorInterval k with
              | Some t => delete t (timers s)
              | None => timers s
              end ∧
  pending s' = delete r (pending s) ∧ envs s' = envs s ∧ conns s' = conns s.
Proof.
  intros Hr Hsite He Hk. cbn zeta. unfold ServerTs.step. cbn [step].
  rewrite Hr, Hsite. unfold interval_resume.
  replace (envs (remove_pending r s)) with (envs s) by done.
  rewrite He. cbn [checkLeads]. unfold clear_monitorInterval.
  ws_prims; ws_fields. rewrite Hk. cbn.
  by destruct (monitorInterval k).
Qed.

Lemma server_ts_poll_failure_clears_the_latest_timer_witness :
  let s := ServerTs.run init
             (monitoring "sheetA" SocketIo.sheet3 ++ restart "sheetB" [] ++
              [Fire 2]) in
  let s' := ServerTs.step s (Resolve 6 ApiThrows) in
  read_env <$> pending s !! 6 = Some 0 ∧
  timers s' = delete 5 (timers s) ∧
  timers s' !! 2 = Some {| callback := 0; delay := 5000 |}.
Proof.
  cbn zeta.
  destruct (server_ts_poll_failure_clears_the_latest_timer
              (ServerTs.run init
                 (monitoring "sheetA" SocketIo.sheet3 ++ restart "sheetB" [] ++
                  [Fire 2])) 6
              {| read_env := 0; read_site := Tick; read_tokens := Some "tok";
                 read_spreadsheetId := Some "sheetA" |}
              {| env_conn := "c1"; env_tokens := Some "tok";
                 spreadsheetId := Some "sheetA"; lastRowCount := 3 |}
              {| sessionTokens := Some "tok"; monitorInterval := Some 5;
                 is_open := true |})
    as (_ & Ht & _); [vm_compute; reflexivity..|].
  split; [vm_compute; reflexivity|]. split; [exact Ht|].
  rewrite Ht. vm_compute; reflexivity.
Defined.

(** ** The three servers compute the same batch *)

(** For the same previous count and the same answer of the API, a tick of
    a [ws] server sends a [new-leads] message exactly when a tick of the
    socket.io server emits one, with the same rows under [leads], and
    both store the same new count. *)
Theorem servers_agree_on_the_batch
    (s1 : SocketIo.state) (s2 : state) r1 rd1 e1 r2 rd2 e2 values :
  SocketIo.pending s1 !! r1 = Some rd1 → read_site rd1 = Tick →
  SocketIo.envs s1 !! read_env rd1 = Some e1 →
  pending s2 !! r2 = Some rd2 → read_site rd2 = Tick →
  envs s2 !! read_env rd2 = Some e2 →
  SocketIo.lastRowCount e1 = lastRowCount e2 →
  let s1' := SocketIo.step s1 (SocketIo.Resolve r1 (ApiValues values)) in
  let s2' := ServerTs.step s2 (Resolve r2 (ApiValues values)) in
  ∃ out1 out2,
    SocketIo.emitted s1' = SocketIo.emitted s1 ++ out1 ∧
    sent s2' = sent s2 ++ out2 ∧
    (λ m, field "leads" m.2) <$> out1 = (λ m, field "leads" m.2) <$> out2 ∧
    SocketIo.lastRowCount <$> SocketIo.envs s1' !! read_env rd1 =
      lastRowCount <$> envs s2' !! read_env rd2.
Proof.
  intros Hr1 Hs1 He1 Hr2 Hs2 He2 Heq. cbn zeta.
  destruct (SocketIoFacts.tick_success s1 r1 rd1 e1 values Hr1 Hs1 He1)
    as (Henvs1 & Hem1 & _).
  destruct (WsFacts.ws_tick_success ServerTs.on_start_monitoring
              ServerTs.start_monitoring_resume s2 r2 rd2 e2 values Hr2 Hs2 He2)
    as (Hem2 & Hc2 & _).
  cbn zeta in *. rewrite Heq in Hem1.
  eexists _, _. split; [exact Hem1|]. split; [exact Hem2|].
  unfold ServerTs.step. rewrite Hc2, Henvs1, lookup_insert_eq. cbn.
  split; [|done]. by destruct (negb _ && _).
Qed.

Lemma servers_agree_on_the_batch_witness :
  let s1 := SocketIo.run SocketIo.init
              (SocketIo.monitoring "sheetA" SocketIo.sheet3 ++ [SocketIo.Fire 2]) in
  let s2 := ServerTs.run init (monitoring "sheetA" SocketIo.sheet3 ++ [Fire 2]) in
  let s1' := SocketIo.step s1 (SocketIo.Resolve 3 (ApiValues (Some SocketIo.sheet5))) in
  let s2' := ServerTs.step s2 (Resolve 3 (ApiValues (Some SocketIo.sheet5))) in
  ∃ out1 out2,
    SocketIo.emitted s1' = SocketIo.emitted s1 ++ out1 ∧
    sent s2' = sent s2 ++ out2 ∧
    (λ m, field "leads" m.2) <$> out1 = (λ m, field "leads" m.2) <$> out2 ∧
    SocketIo.lastRowCount <$> SocketIo.envs s1' !! 0 =
      lastRowCount <$> envs s2' !! 0.
Proof.
  cbn zeta.
  apply (servers_agree_on_the_batch
           (SocketIo.run SocketIo.init
              (SocketIo.monitoring "sheetA" SocketIo.sheet3 ++ [SocketIo.Fire 2]))
           (ServerTs.run init (monitoring "sheetA" SocketIo.sheet3 ++ [Fire 2]))
           3 {| read_env := 0; read_site := Tick; read_tokens := Some "tok";
                read_spreadsheetId := Some "sheetA" |}
           {| SocketIo.env_socket := "s1"; SocketIo.spreadsheetId := Some "sheetA";
              SocketIo.lastRowCount := 3; SocketIo.interval := Some 2 |}
           3 {| read_env := 0; read_site := Tick; read_tokens := Some "tok";
                read_spreadsheetId := Some "sheetA" |}
           {| env_conn := "c1"; env_tokens := Some "tok";
              spreadsheetId := Some "sheetA"; lastRowCount := 3 |}
           (Some SocketIo.sheet5));
    vm_compute; reflexivity.
Defined.

End WsMore.

(** * Properties of the client *)

Module AppFacts.
Import Stdlib.Strings.Ascii.
Import App.

(** ** Cutting strings *)

Lemma prefix_cons a s1 b s2 :
  String.prefix (String a s1) (String b s2) =
  if Ascii.ascii_dec a b then String.prefix s1 s2 else false.
Proof. done. Qed.

Lemma cut_cons sep a s :
  cut sep (String a s) =
  if String.prefix sep (String a s)
  then Some (EmptyString, string_drop (String.length sep) (String a s))
  else match cut sep s with
       | Some (b, r) => Some (String a b, r)
       | None => None
       end.
Proof. done. Qed.

Lemma cut_empty a sep : cut (String a sep) EmptyString = None.
Proof. done. Qed.

Lemma before_empty sep : before sep EmptyString = EmptyString.
Proof. unfold before. by destruct sep. Qed.

Lemma string_app_nil_r s : s +:+ EmptyString = s.
Proof.
  induction s as [|a s IH]; [done|].
  change (String a (s +:+ EmptyString) = String a s). by rewrite IH.
Qed.

(** A text without ["/"] is skipped by the search for a separator that
    starts with ["/"]. *)
Lemma cut_app_no_slash sep' id t :
  includes "/" id = false →
  cut (String "/"%char sep') (id +:+ t) =
  match cut (String "/"%char sep') t with
  | Some (b, r) => Some (id +:+ b, r)
  | None => None
  end.
Proof.
  induction id as [|a id IH]; intros Hid.
  - change (EmptyString +:+ t) with t.
    destruct (cut (String "/"%char sep') t) as [[b r]|]; reflexivity.
  - unfold includes in Hid. rewrite cut_cons, prefix_cons in Hid.
    change (String a id +:+ t) with (String a (id +:+ t)).
    rewrite cut_cons, prefix_cons.
    destruct (Ascii.ascii_dec "/"%char a) as [Heq|Hne].
    + by destruct id.
    + rewrite IH.
      * by destruct (cut _ t) as [[b r]|].
      * unfold includes. by destruct (cut "/" id) as [[b r]|].
Qed.

Lemma before_app_no_slash sep' id t :
  includes "/" id = false →
  before (String "/"%char sep') (id +:+ t) = id +:+ before (String "/"%char sep') t.
Proof.
  intros Hid. unfold before. rewrite cut_app_no_slash by done.
  by destruct (cut _ t) as [[b r]|].
Qed.

(** The piece before the first ["/"] holds no ["/"]. *)
Lemma before_slash_free s : includes "/" (before "/" s) = false.
Proof.
  unfold before, includes. induction s as [|a s IH]; [done|].
  rewrite cut_cons, prefix_cons.
  destruct (Ascii.ascii_dec "/"%char a) as [Heq|Hne].
  - by destruct s.
  - destruct (cut "/" s) as [[b r]|] eqn:Hc.
    + rewrite cut_cons, prefix_cons. destruct (Ascii.ascii_dec "/"%char a); [done|].
      by destruct (cut "/" b) as [[b' r']|].
    + rewrite cut_cons, prefix_cons. destruct (Ascii.ascii_dec "/"%char a); [done|].
      by rewrite Hc.
Qed.

Lemma prefix_length sep s :
  String.prefix sep s = true → String.length sep ≤ String.length s.
Proof.
  revert sep. induction s as [|b s IH]; intros [|a sep]; cbn; try done; try lia.
  destruct (Ascii.ascii_dec a b); [|done]. intros H%IH. lia.
Qed.

Lemma string_drop_length n s :
  String.length (string_drop n s) = String.length s - n.
Proof.
  revert s. induction n as [|n IH]; intros [|a s]; cbn; try done; lia.
Qed.

(** A cut takes the separator out of the text. *)
Lemma cut_length sep s b r :
  cut sep s = Some (b, r) →
  String.length s = String.length b + String.length sep + String.length r.
Proof.
  revert b r. induction s as [|a s IH]; intros b r.
  - cbn [cut]. destruct (String.prefix sep "") eqn:Hp; [|done].
    intros [= <- <-]. apply prefix_length in Hp.
    rewrite string_drop_length. cbn in *. lia.
  - rewrite cut_cons. destruct (String.prefix sep (String a s)) eqn:Hp.
    + intros [= <- <-]. apply prefix_length in Hp.
      rewrite string_drop_length. cbn in *. lia.
    + destruct (cut sep s) as [[b' r']|]; [|done]. intros [= <- <-].
      specialize (IH _ _ eq_refl). cbn. lia.
Qed.

Lemma split_fuel_head n sep s :
  (n = 0 → s = EmptyString) →
  split_fuel n sep s !! 0 = Some (before sep s).
Proof.
  intros Hn. destruct n as [|n].
  - rewrite Hn by done. by rewrite before_empty.
  - cbn [split_fuel]. unfold before. by destruct (cut sep s) as [[b r]|].
Qed.

Lemma split_head sep s : split sep s !! 0 = Some (before sep s).
Proof. apply split_fuel_head. by destruct s. Qed.

Lemma split_second a sep s b r :
  cut (String a sep) s = Some (b, r) →
  split (String a sep) s !! 1 = Some (before (String a sep) r).
Proof.
  intros Hc. pose proof (cut_length _ _ _ _ Hc) as Hlen. cbn in Hlen.
  unfold split. destruct (String.length s) as [|n] eqn:Hs; [lia|].
  cbn [split_fuel]. rewrite Hc. cbn [lookup list_lookup].
  apply (split_fuel_head n). intros ->. destruct r; [done|cbn in Hlen; lia].
Qed.

Lemma extract_id_cut s pre tail :
  cut "/d/" s = Some (pre, tail) →
  extract_id s = Some (before "/" (before "/d/" tail)).
Proof.
  intros Hc. unfold extract_id, includes. rewrite Hc.
  rewrite (split_second _ _ _ _ _ Hc). cbn [mbind option_bind].
  apply split_head.
Qed.

Lemma string_app_cons a s t : String a s +:+ t = String a (s +:+ t).
Proof. done. Qed.

Lemma string_app_assoc s t u : (s +:+ t) +:+ u = s +:+ t +:+ u.
Proof.
  induction s as [|a s IH]; [done|]. rewrite !string_app_cons. by rewrite IH.
Qed.

Lemma string_app_length s t :
  String.length (s +:+ t) = String.length s + String.length t.
Proof.
  induction s as [|a s IH]; [done|]. rewrite string_app_cons. cbn. by rewrite IH.
Qed.

(** Whether [sep] starts a text is decided by as many characters as [sep]
    has. *)
Lemma prefix_app_long sep : ∀ x y,
  String.length sep ≤ String.length x →
  String.prefix sep (x +:+ y) = String.prefix sep x.
Proof.
  induction sep as [|a sep IH]; intros x y Hlen.
  - destruct x; [by destruct y|done].
  - destruct x as [|b x]; [cbn in Hlen; lia|].
    rewrite string_app_cons, !prefix_cons.
    destruct (Ascii.ascii_dec a b); [|done]. apply IH. cbn in Hlen. lia.
Qed.

(** The first ["/d/"] of a text is the one that no earlier ["/d/"]
    overlaps or precedes. *)
Lemma cut_first pre tail :
  includes "/d/" (pre +:+ "/d") = false →
  cut "/d/" (pre +:+ "/d/" +:+ tail) = Some (pre, tail).
Proof.
  induction pre as [|a pre IH]; intros Hpre.
  { change (EmptyString +:+ "/d/" +:+ tail)
      with (String "/"%char (String "d"%char (String "/"%char tail))).
    rewrite cut_cons, !prefix_cons.
    destruct (Ascii.ascii_dec "/"%char "/"%char); [|done].
    destruct (Ascii.ascii_dec "d"%char "d"%char); [|done].
    by destruct tail. }
  unfold includes in Hpre. rewrite string_app_cons, cut_cons in Hpre.
  destruct (String.prefix "/d/" (String a (pre +:+ "/d"))) eqn:Hp; [done|].
  rewrite string_app_cons, cut_cons.
  replace (String a (pre +:+ "/d/" +:+ tail))
    with (String a (pre +:+ "/d") +:+ String "/"%char tail)
    by (rewrite string_app_cons, string_app_assoc; reflexivity).
  rewrite prefix_app_long, Hp.
  - rewrite IH; [done|]. unfold includes.
    by destruct (cut "/d/" (pre +:+ "/d")) as [[b r]|].
  - cbn. rewrite string_app_length. cbn. lia.
Qed.

(** ** The spreadsheet id *)

(** From a link to a sheet, [startMonitoring] takes the id: the text
    between the first ["/d/"] and the next ["/"], or the end of the link
    when no ["/"] follows. The first ["/d/"] is the one before the id
    when none starts earlier in the link. *)
Theorem extract_id_of_a_link pre id rest :
  includes "/d/" (pre +:+ "/d") = false → includes "/" id = false →
  rest = EmptyString ∨ (∃ rest', rest = String "/"%char rest') →
  extract_id (pre +:+ "/d/" +:+ id +:+ rest) = Some id.
Proof.
  intros Hpre Hid Hrest.
  rewrite (extract_id_cut _ pre (id +:+ rest)) by by apply cut_first.
  rewrite before_app_no_slash by done.
  assert (Hz : before "/d/" rest = EmptyString ∨
               ∃ z, before "/d/" rest = String "/"%char z).
  { destruct Hrest as [->|[rest' ->]]; [by left|].
    unfold before. rewrite cut_cons.
    destruct (String.prefix "/d/" (String "/"%char rest')); [by left|].
    destruct (cut "/d/" rest') as [[b r]|]; right; eauto. }
  rewrite before_app_no_slash by done.
  assert (Hb : before "/" (before "/d/" rest) = EmptyString).
  { destruct Hz as [->|[z ->]]; [apply before_empty|].
    unfold before. rewrite cut_cons, prefix_cons.
    destruct (Ascii.ascii_dec "/"%char "/"%char); [by destruct z|done]. }
  by rewrite Hb, string_app_nil_r.
Qed.

Lemma extract_id_of_a_link_witness :
  extract_id ("https://docs.google.com/spreadsheets" +:+ "/d/" +:+
              "1AbC_x-9" +:+ "/edit#gid=0") = Some "1AbC_x-9".
Proof.
  apply (extract_id_of_a_link "https://docs.google.com/spreadsheets"
           "1AbC_x-9" "/edit#gid=0");
    [vm_compute; reflexivity|vm_compute; reflexivity|].
  right. by exists "edit#gid=0".
Defined.

(** [startMonitoring] never fails on its input: the piece [split(...)[1]]
    exists whenever the text includes ["/d/"]. A text without ["/d/"] is
    sent as it is, and the id taken from a text with ["/d/"] holds no
    ["/"]. *)
Theorem extract_id_total s :
  ∃ id, extract_id s = Some id ∧
        (includes "/d/" s = false → id = s) ∧
        (includes "/d/" s = true → includes "/" id = false).
Proof.
  destruct (cut "/d/" s) as [[pre tail]|] eqn:Hc.
  - eexists. split; [by apply (extract_id_cut s pre tail)|].
    unfold includes at 1 3. rewrite Hc. split; [done|].
    intros _. apply before_slash_free.
  - exists s. unfold extract_id, includes. by rewrite Hc.
Qed.

(** ** The feed *)

Lemma js_slice_range_take {A} (l : list A) (n : nat) :
  js_slice_range l 0 (Z.of_nat n) = take n l.
Proof.
  unfold js_slice_range. cbn zeta.
  destruct (Z.ltb_spec (Z.of_nat n) 0) as [Hneg|_]; [lia|].
  destruct (Z.ltb_spec 0 0) as [Hneg|_]; [lia|].
  rewrite (Z.min_l 0) by lia. rewrite Z.sub_0_r.
  change (Z.to_nat 0) with 0. rewrite drop_0.
  destruct (decide (n ≤ length l)) as [Hle|Hgt].
  - by rewrite Z.min_l, Nat2Z.id by lia.
  - rewrite Z.min_r, Nat2Z.id by lia. rewrite !take_ge; [done|lia..].
Qed.

Lemma newLeads_data now leads : data <$> newLeads now leads = leads.
Proof.
  unfold newLeads. revert now.
  induction leads as [|row leads IH]; intros now; [done|].
  cbn. f_equal. apply IH.
Qed.

Lemma take_app_take {A} (n : nat) (l k : list A) :
  take n (l ++ take n k) = take n (l ++ k).
Proof.
  rewrite !take_app, take_take. f_equal. f_equal. lia.
Qed.

(** After any sequence of [new-leads] messages the feed holds the rows of
    the batches, the latest batch first and every batch in source order,
    cut to the first 50 entries. *)
Theorem feed_is_the_first_50 batches : ∀ prev,
  length prev ≤ 50 →
  data <$> feed prev batches =
    take 50 (concat (reverse batches.*2) ++ (data <$> prev)) ∧
  length (feed prev batches) ≤ 50.
Proof.
  induction batches as [|[now leads] batches IH]; intros prev Hlen.
  - cbn. rewrite take_ge by (rewrite length_fmap; lia). done.
  - cbn [feed fmap list_fmap snd]. unfold on_new_leads.
    rewrite (js_slice_range_take _ 50).
    destruct (IH (take 50 (newLeads now leads ++ prev))) as [Hdata Hl].
    { rewrite length_take. lia. }
    split; [|done]. rewrite Hdata.
    rewrite fmap_take, fmap_app, newLeads_data.
    rewrite reverse_cons, concat_app. cbn [concat]. rewrite app_nil_r.
    rewrite <- !(assoc_L (++)). by rewrite take_app_take.
Qed.

Lemma feed_is_the_first_50_witness :
  data <$> feed [] [((λ _, 1%Z), SocketIo.sheet3); ((λ _, 2%Z), SocketIo.sheet5)] =
    take 50 (concat (reverse [SocketIo.sheet3; SocketIo.sheet5]) ++ []) ∧
  length (feed [] [((λ _, 1%Z), SocketIo.sheet3); ((λ _, 2%Z), SocketIo.sheet5)]) ≤ 50.
Proof.
  apply (feed_is_the_first_50
           [((λ _, 1%Z), SocketIo.sheet3); ((λ _, 2%Z), SocketIo.sheet5)] []).
  cbn. lia.
Defined.

(** ** From the client to the server *)

Lemma deliver_start sid id :
  deliver sid (Emit "start-monitoring"
                 [("spreadsheetId", VStr id); ("tokens", VStr "SESSION_TOKENS")]) =
  [SocketIo.StartMonitoring sid (Some id)].
Proof. reflexivity. Qed.

Lemma link_not_empty pre tail : pre +:+ "/d/" +:+ tail ≠ EmptyString.
Proof.
  intros H%(f_equal String.length). rewrite !string_app_length in H.
  cbn in H. lia.
Qed.

Lemma startMonitoring_of_a_link a pre id rest :
  spreadsheetId a = pre +:+ "/d/" +:+ id +:+ rest →
  includes "/d/" (pre +:+ "/d") = false → includes "/" id = false →
  rest = EmptyString ∨ (∃ rest', rest = String "/"%char rest') →
  startMonitoring a =
    Some ({| spreadsheetId := spreadsheetId a; isMonitoring := true;
             app_status := Monitoring |},
          [Emit "start-monitoring"
             [("spreadsheetId", VStr id); ("tokens", VStr "SESSION_TOKENS")]]).
Proof.
  intros Ha Hpre Hid Hrest. unfold startMonitoring.
  rewrite bool_decide_eq_false_2
    by (rewrite Ha; apply link_not_empty).
  rewrite Ha at 1. by rewrite extract_id_of_a_link.
Qed.

(** A link to a sheet entered in the client starts a session on the
    socket.io server for the id of the link: [startMonitoring] shows the
    client as monitoring and emits [start-monitoring] with the id, and the
    server, for a connection with tokens, calls [checkLeads] with that
    id. *)
Theorem link_starts_a_read_of_its_id s sid tk a pre id rest :
  spreadsheetId a = pre +:+ "/d/" +:+ id +:+ rest →
  includes "/d/" (pre +:+ "/d") = false → includes "/" id = false →
  rest = EmptyString ∨ (∃ rest', rest = String "/"%char rest') →
  id ≠ EmptyString →
  SocketIo.is_connected sid s = true →
  SocketIo.session_tokens sid s = Some tk →
  ∃ a' effs,
    startMonitoring a = Some (a', effs) ∧
    isMonitoring a' = true ∧ app_status a' = Monitoring ∧
    SocketIo.pending (SocketIo.run s (effs ≫= deliver sid))
      !! S (SocketIo.next_id s) =
      Some {| read_env := SocketIo.next_id s; read_site := Baseline;
              read_tokens := Some tk; read_spreadsheetId := Some id |}.
Proof.
  intros Ha Hpre Hid Hrest Hne Hc Htk. eexists _, _.
  split; [by eapply startMonitoring_of_a_link|]. split; [done|]. split; [done|].
  cbn [mbind list_bind]. rewrite deliver_start, app_nil_r.
  cbn [SocketIo.run foldl].
  rewrite (SocketIoFacts.start_accepted s sid (Some id) tk Hc Htk)
    by (cbn; by apply bool_decide_eq_false_2).
  unfold SocketIo.call_checkLeads, SocketIo.new_env.
  cbn [SocketIo.pending SocketIo.next_id snd]. apply lookup_insert_eq.
Qed.

Lemma link_starts_a_read_of_its_id_witness :
  let a := {| spreadsheetId :=
                "https://docs.google.com/spreadsheets" +:+ "/d/" +:+
                "1AbC_x-9" +:+ "/edit#gid=0";
              isMonitoring := false; app_status := Idle |} in
  let s := SocketIo.run SocketIo.init [SocketIo.Connection "s1" (Some "tok")] in
  ∃ a' effs,
    startMonitoring a = Some (a', effs) ∧
    isMonitoring a' = true ∧ app_status a' = Monitoring ∧
    SocketIo.pending (SocketIo.run s (effs ≫= deliver "s1"))
      !! S (SocketIo.next_id s) =
      Some {| read_env := SocketIo.next_id s; read_site := Baseline;
              read_tokens := Some "tok";
              read_spreadsheetId := Some "1AbC_x-9" |}.
Proof.
  cbn zeta.
  apply (link_starts_a_read_of_its_id _ "s1" "tok" _
           "https://docs.google.com/spreadsheets" "1AbC_x-9" "/edit#gid=0");
    [done|vm_compute; reflexivity|vm_compute; reflexivity| |done|
     vm_compute; reflexivity|vm_compute; reflexivity].
  right. by exists "edit#gid=0".
Defined.

(** A link whose id is empty, as when ["/d/"] ends the text or is followed
    by ["/"], passes the client's test for an empty input: the client
    shows itself as monitoring and emits [start-monitoring] with the empty
    id, which the server's guard drops without a read, a session or a
    message back. *)
Theorem link_without_an_id_is_dropped_silently s sid a pre rest :
  spreadsheetId a = pre +:+ "/d/" +:+ rest →
  includes "/d/" (pre +:+ "/d") = false →
  rest = EmptyString ∨ (∃ rest', rest = String "/"%char rest') →
  ∃ a' effs,
    startMonitoring a = Some (a', effs) ∧
    isMonitoring a' = true ∧ app_status a' = Monitoring ∧
    effs = [Emit "start-monitoring"
              [("spreadsheetId", VStr EmptyString);
               ("tokens", VStr "SESSION_TOKENS")]] ∧
    SocketIo.run s (effs ≫= deliver sid) = s.
Proof.
  intros Ha Hpre Hrest. eexists _, _.
  split; [by apply (startMonitoring_of_a_link a pre EmptyString rest)|].
  split; [done|]. split; [done|]. split; [done|].
  cbn [mbind list_bind]. rewrite deliver_start, app_nil_r.
  cbn [SocketIo.run foldl]. apply SocketIoFacts.start_rejected. by left.
Qed.

Lemma link_without_an_id_is_dropped_silently_witness :
  let a := {| spreadsheetId :=
                "https://docs.google.com/spreadsheets" +:+ "/d/" +:+ "/edit";
              isMonitoring := false; app_status := Idle |} in
  let s := SocketIo.run SocketIo.init [SocketIo.Connection "s1" (Some "tok")] in
  ∃ a' effs,
    startMonitoring a = Some (a', effs) ∧
    isMonitoring a' = true ∧ app_status a' = Monitoring ∧
    effs = [Emit "start-monitoring"
              [("spreadsheetId", VStr EmptyString);
               ("tokens", VStr "SESSION_TOKENS")]] ∧
    SocketIo.run s (effs ≫= deliver "s1") = s.
Proof.
  cbn zeta.
  apply (link_without_an_id_is_dropped_silently _ "s1" _
           "https://docs.google.com/spreadsheets" "/edit");
    [done|vm_compute; reflexivity|].
  right. by exists "edit".
Defined.

End AppFacts.
